(** * Address book (hw-01.py): fields, records, the book and its birthday query

    A shallow embedding of [src/hw-01.py].  Python values are modelled as
    follows.

    - [str]: a Rocq [string]; every character is read as the Unicode code
      point with the same number, so the strings of this development are the
      Python strings over the code points U+0000 .. U+00FF.  On this range
      [str.isdigit] holds of 0-9 and of the superscripts U+00B2, U+00B3 and
      U+00B9, and [\d] and [int] know the digits 0-9 only.
    - [int]: [Z].
    - an exception raised by a call: the [Raise] case of [result]; a method
      that mutates its object and may raise is a function from the state of
      the object to a [result] and the state left behind.
    - [datetime.date]: the record [date] with CPython's proleptic Gregorian
      arithmetic ([_ymd2ord], [_ord2ymd], [_days_before_year], ...).  The
      texts of the exceptions of the library are CPython's in spirit only;
      nothing below depends on them.
    - [datetime.strptime]: the regular expression CPython builds for the
      format ["%d.%m.%Y"], run by a backtracking matcher, and the conversion
      of the three groups; [strftime] prints the day and the month on two
      digits and the year as the C library prints [%Y]: glibc, under
      CPython 3.11, writes the plain decimal number, so a year below 1000
      comes without leading zeros.
    - [dict] (the [data] of the [UserDict]): an association list in insertion
      order.
    - the clock: [get_upcoming_birthdays] takes the value of
      [datetime.today().date()] as an argument.
    - the file: what is at the file name, seen through [pickle.load]; what
      the file system does with a write, [open(filename, "wb")] and
      [pickle.dump] together, is an argument of [save_data] and of
      everything that calls it: the write is done, or it raises [OSError]. *)

From stdpp Require Import base tactics option list numbers strings.
From Stdlib Require Import ZArith Lia Ascii.

Local Open Scope string_scope.
Local Open Scope list_scope.
Local Open Scope Z_scope.

(** ** Exceptions and results *)

Module Py.

(** The exception classes the program meets.  [ValueError] carries the text
    the program gives it. *)
Inductive exn : Type :=
| ValueError (msg : string)
| OverflowError (msg : string)
| FileNotFoundError
| EOFError
| UnpicklingError (msg : string)
| OSError (msg : string).

Inductive result (A : Type) : Type :=
| Ok (a : A)
| Raise (e : exn).
Global Arguments Ok {A} a.
Global Arguments Raise {A} e.

Global Instance result_ret : MRet result := fun A a => Ok a.
Global Instance result_bind : MBind result := fun A B f m =>
  match m with
  | Ok a => f a
  | Raise e => Raise e
  end.

Definition is_Ok {A} (r : result A) : Prop := exists a, r = Ok a.
Definition is_Raise {A} (r : result A) : Prop := exists e, r = Raise e.

(** A method of a mutable object: it reads the state [S] of [self], may
    change it, and returns or raises.  The state after a raise is the state
    at the point of the raise. *)
Definition method (S A : Type) : Type := S -> result A * S.

Definition returns {S A} (a : A) : method S A := fun s => (Ok a, s).
Definition raises {S A} (e : exn) : method S A := fun s => (Raise e, s).
Definition lift {S A} (r : result A) : method S A := fun s => (r, s).
Definition read {S A} (f : S -> A) : method S A := fun s => (Ok (f s), s).
Definition update {S} (f : S -> S) : method S unit := fun s => (Ok tt, f s).
Global Instance method_ret {S} : MRet (method S) := fun A a => returns a.
Global Instance method_bind {S} : MBind (method S) := fun A B k m s =>
  match m s with
  | (Ok a, s') => k a s'
  | (Raise e, s') => (Raise e, s')
  end.

End Py.
Export Py.

(** ** [datetime.date] *)

Module Calendar.

Definition MINYEAR : Z := 1.
Definition MAXYEAR : Z := 9999.
Definition MAXORDINAL : Z := 3652059.

Definition is_leap (year : Z) : bool :=
  (year mod 4 =? 0) && (negb (year mod 100 =? 0) || (year mod 400 =? 0)).

Definition DAYS_IN_MONTH (month : Z) : Z :=
  match month with
  | 1 => 31 | 2 => 28 | 3 => 31 | 4 => 30 | 5 => 31 | 6 => 30
  | 7 => 31 | 8 => 31 | 9 => 30 | 10 => 31 | 11 => 30 | 12 => 31
  | _ => 0
  end.

Definition DAYS_BEFORE_MONTH (month : Z) : Z :=
  match month with
  | 1 => 0 | 2 => 31 | 3 => 59 | 4 => 90 | 5 => 120 | 6 => 151
  | 7 => 181 | 8 => 212 | 9 => 243 | 10 => 273 | 11 => 304 | 12 => 334
  | _ => 0
  end.

Definition days_before_year (year : Z) : Z :=
  let y := year - 1 in
  y * 365 + y / 4 - y / 100 + y / 400.

Definition days_in_month (year month : Z) : Z :=
  if (month =? 2) && is_leap year then 29 else DAYS_IN_MONTH month.

Definition days_before_month (year month : Z) : Z :=
  DAYS_BEFORE_MONTH month + (if (2 <? month) && is_leap year then 1 else 0).

Definition ymd2ord (year month day : Z) : Z :=
  days_before_year year + days_before_month year month + day.

Definition DI400Y : Z := 146097.
Definition DI100Y : Z := 36524.
Definition DI4Y : Z := 1461.

Record date : Type := mkdate { year : Z; month : Z; day : Z }.

Definition ord2ymd (n : Z) : date :=
  let n := n - 1 in
  let n400 := n / DI400Y in
  let n := n mod DI400Y in
  let year := n400 * 400 + 1 in
  let n100 := n / DI100Y in
  let n := n mod DI100Y in
  let n4 := n / DI4Y in
  let n := n mod DI4Y in
  let n1 := n / 365 in
  let n := n mod 365 in
  let year := year + n100 * 100 + n4 * 4 + n1 in
  if (n1 =? 4) || (n100 =? 4) then mkdate (year - 1) 12 31
  else
    let leapyear := (n1 =? 3) && (negb (n4 =? 24) || (n100 =? 3)) in
    let month := Z.shiftr (n + 50) 5 in
    let preceding :=
      DAYS_BEFORE_MONTH month + (if (2 <? month) && leapyear then 1 else 0) in
    if n <? preceding then
      let month := month - 1 in
      let preceding :=
        preceding - (DAYS_IN_MONTH month + (if (month =? 2) && leapyear then 1 else 0)) in
      mkdate year month (n - preceding + 1)
    else mkdate year month (n - preceding + 1).

(** [date(year, month, day)]: the constructor checks the three fields. *)
Definition date_new (year month day : Z) : result date :=
  if negb ((MINYEAR <=? year) && (year <=? MAXYEAR)) then
    Raise (ValueError "year is out of range")
  else if negb ((1 <=? month) && (month <=? 12)) then
    Raise (ValueError "month must be in 1..12")
  else if negb ((1 <=? day) && (day <=? days_in_month year month)) then
    Raise (ValueError "day is out of range for month")
  else Ok (mkdate year month day).

(** [d.replace(year=y)] *)
Definition replace_year (d : date) (y : Z) : result date :=
  date_new y (month d) (day d).

Definition toordinal (d : date) : Z := ymd2ord (year d) (month d) (day d).

(** [a < b]: the (year, month, day) triples are compared. *)
Definition date_lt (a b : date) : bool :=
  (year a <? year b)
  || ((year a =? year b)
      && ((month a <? month b) || ((month a =? month b) && (day a <? day b)))).

(** [(a - b).days] *)
Definition days_between (a b : date) : Z := toordinal a - toordinal b.

(** [d.weekday()]: Monday is 0, Sunday is 6. *)
Definition weekday (d : date) : Z := (toordinal d + 6) mod 7.

(** [d + timedelta(days=n)] *)
Definition add_days (d : date) (n : Z) : result date :=
  let o := toordinal d + n in
  if (0 <? o) && (o <=? MAXORDINAL) then Ok (ord2ymd o)
  else Raise (OverflowError "date value out of range").

(** The values a [date] object can hold. *)
Definition valid (d : date) : Prop :=
  MINYEAR <= year d <= MAXYEAR /\ 1 <= month d <= 12
  /\ 1 <= day d <= days_in_month (year d) (month d).

End Calendar.
Export Calendar.

(** ** [str] *)

Module Str.

(** [ord(c)] *)
Definition ord (c : ascii) : Z := Z.of_N (Ascii.N_of_ascii c).

(** The characters for which [str.isdigit] holds (Unicode Numeric_Type
    Digit or Decimal): below U+0100 these are 0-9 and the superscripts
    U+00B2, U+00B3 and U+00B9. *)
Definition chr_isdigit (c : ascii) : bool :=
  let n := ord c in
  ((48 <=? n) && (n <=? 57)) || (n =? 178) || (n =? 179) || (n =? 185).

(** The characters of category Nd, which the regular expression [\d]
    matches and [int] reads: below U+0100 these are 0-9. *)
Definition chr_isdecimal (c : ascii) : bool :=
  let n := ord c in (48 <=? n) && (n <=? 57).

(** The characters [0-9] of the specification's pattern. *)
Definition chr_isascii_digit (c : ascii) : bool :=
  let n := ord c in (48 <=? n) && (n <=? 57).

Fixpoint all_chars (p : ascii -> bool) (s : string) : bool :=
  match s with
  | EmptyString => true
  | String c s' => p c && all_chars p s'
  end.

(** [s.isdigit()]: every character is a digit and there is at least one. *)
Definition isdigit (s : string) : bool :=
  match s with
  | EmptyString => false
  | _ => all_chars chr_isdigit s
  end.

(** [len(s)] *)
Definition len (s : string) : Z := Z.of_nat (String.length s).

(** [int(s)] for the texts the date parser hands it: optional blanks, then
    decimal digits. *)
Fixpoint lstrip (s : string) : string :=
  match s with
  | String c s' => if Ascii.eqb c " " then lstrip s' else s
  | EmptyString => s
  end.

Fixpoint digits_value (acc : Z) (s : string) : Z :=
  match s with
  | EmptyString => acc
  | String c s' => digits_value (acc * 10 + (ord c - 48)) s'
  end.

Definition int (s : string) : result Z :=
  let t := lstrip s in
  match t with
  | EmptyString => Raise (ValueError "invalid literal for int()")
  | _ => if all_chars chr_isdecimal t then Ok (digits_value 0 t)
         else Raise (ValueError "invalid literal for int()")
  end.

(** One decimal digit as a character. *)
Definition digit_chr (n : Z) : ascii := Ascii.ascii_of_N (Z.to_N (48 + n)).

(** ["%02d" % n] and ["%04d" % n] for [0 <= n] below 100 and 10000. *)
Definition zfill2 (n : Z) : string :=
  String (digit_chr (n / 10)) (String (digit_chr (n mod 10)) "").

Definition zfill4 (n : Z) : string :=
  String (digit_chr (n / 1000))
    (String (digit_chr (n / 100 mod 10))
       (String (digit_chr (n / 10 mod 10)) (String (digit_chr (n mod 10)) ""))).

(** [str(n)] for [0 <= n < 10000]: no leading zeros. *)
Definition str_int (n : Z) : string :=
  if n <? 10 then String (digit_chr n) ""
  else if n <? 100 then zfill2 n
  else if n <? 1000 then String (digit_chr (n / 100)) (zfill2 (n mod 100))
  else zfill4 n.

End Str.
Export Str.

(** ** Regular expressions, as far as [strptime] uses them *)

Module Regex.

Inductive re : Type :=
| Lit (c : ascii)              (* one literal character *)
| Range (lo hi : ascii)        (* [lo-hi] *)
| Digit                        (* \d *)
| Seq (r1 r2 : re)             (* r1 r2 *)
| Alt (r1 r2 : re)             (* r1|r2 *)
| Group (name : string) (r : re).  (* (?P<name>r) *)

(** A way to match a prefix of the subject: the text consumed, the named
    groups captured, and the rest of the subject. *)
Record matching : Type :=
  mkmatching { consumed : string; groups : list (string * string); rest : string }.

Definition one_char (p : ascii -> bool) (s : string) : list matching :=
  match s with
  | String c s' => if p c then [mkmatching (String c "") [] s'] else []
  | EmptyString => []
  end.

(** All the ways [r] matches at the start of [s], in the order in which a
    backtracking matcher tries them. *)
Fixpoint run (r : re) (s : string) : list matching :=
  match r with
  | Lit c => one_char (fun x => Ascii.eqb x c) s
  | Range lo hi => one_char (fun x => (ord lo <=? ord x) && (ord x <=? ord hi)) s
  | Digit => one_char chr_isdecimal s
  | Seq r1 r2 =>
      m1 ← run r1 s;
      m2 ← run r2 (rest m1);
      [mkmatching (consumed m1 ++ consumed m2)%string (groups m1 ++ groups m2) (rest m2)]
  | Alt r1 r2 => run r1 s ++ run r2 s
  | Group name r =>
      m ← run r s;
      [mkmatching (consumed m) ((name, consumed m) :: groups m) (rest m)]
  end.

(** [re.match(r, s)]: the first way, if there is one. *)
Definition re_match (r : re) (s : string) : option matching := head (run r s).

(** [m.group(name)] *)
Fixpoint group (name : string) (gs : list (string * string)) : string :=
  match gs with
  | [] => ""
  | (k, v) :: gs' => if String.eqb k name then v else group name gs'
  end.

(** What a pattern means: the texts it matches, with the groups they give. *)
Fixpoint lang (r : re) (t : string) (gs : list (string * string)) : Prop :=
  match r with
  | Lit c => t = String c "" /\ gs = []
  | Range lo hi =>
      exists c, t = String c "" /\ gs = []
                /\ (ord lo <=? ord c) && (ord c <=? ord hi) = true
  | Digit => exists c, t = String c "" /\ gs = [] /\ chr_isdecimal c = true
  | Seq r1 r2 =>
      exists t1 g1 t2 g2,
        lang r1 t1 g1 /\ lang r2 t2 g2 /\ t = (t1 ++ t2)%string /\ gs = g1 ++ g2
  | Alt r1 r2 => lang r1 t gs \/ lang r2 t gs
  | Group name r => exists g, lang r t g /\ gs = (name, t) :: g
  end.

End Regex.
Export Regex.

(** ** [datetime.strptime(value, "%d.%m.%Y").date()] and
       [d.strftime("%d.%m.%Y")] *)

Module Strptime.

(** [%d]: (?P<d>3[0-1]|[1-2]\d|0[1-9]|[1-9]| [1-9]) *)
Definition re_d : re :=
  Group "d"
    (Alt (Seq (Lit "3") (Range "0" "1"))
       (Alt (Seq (Range "1" "2") Digit)
          (Alt (Seq (Lit "0") (Range "1" "9"))
             (Alt (Range "1" "9") (Seq (Lit " ") (Range "1" "9")))))).

(** [%m]: (?P<m>1[0-2]|0[1-9]|[1-9]) *)
Definition re_m : re :=
  Group "m"
    (Alt (Seq (Lit "1") (Range "0" "2"))
       (Alt (Seq (Lit "0") (Range "1" "9")) (Range "1" "9"))).

(** [%Y]: (?P<Y>\d\d\d\d) *)
Definition re_Y : re :=
  Group "Y" (Seq Digit (Seq Digit (Seq Digit Digit))).

(** The pattern of the format ["%d.%m.%Y"]. *)
Definition format_regex : re :=
  Seq re_d (Seq (Lit ".") (Seq re_m (Seq (Lit ".") re_Y))).

Definition strptime (data_string : string) : result date :=
  match re_match format_regex data_string with
  | None => Raise (ValueError "time data does not match format")
  | Some found =>
      if negb (String.eqb (rest found) "") then
        Raise (ValueError "unconverted data remains")
      else
        year ← int (group "Y" (groups found));
        month ← int (group "m" (groups found));
        day ← int (group "d" (groups found));
        date_new year month day
  end.

(** [d.strftime("%d.%m.%Y")]: day and month on two digits; [%Y] is left to
    the C library, and glibc prints the year as a plain decimal number
    (999, not 0999). *)
Definition strftime (d : date) : string :=
  (zfill2 (day d) ++ "." ++ zfill2 (month d) ++ "." ++ str_int (year d))%string.

End Strptime.
Export Strptime.

(** ** Fields: [Name], [Phone], [Birthday] *)

Module Fields.

Record Name : Type := mkName { Name_value : string }.
Record Phone : Type := mkPhone { Phone_value : string }.
Record Birthday : Type := mkBirthday { Birthday_value : date }.

(** [Name(value)] *)
Definition Name_init (value : string) : result Name :=
  if String.eqb value "" then Raise (ValueError "Name cannot be empty.")
  else Ok (mkName value).

(** [Phone(value)] *)
Definition Phone_init (value : string) : result Phone :=
  if negb (isdigit value) || negb (len value =? 10) then
    Raise (ValueError "Phone must contain exactly 10 digits")
  else Ok (mkPhone value).

(** [Birthday(value)]: a [ValueError] of the parser is replaced by the
    program's own. *)
Definition Birthday_init (value : string) : result Birthday :=
  match strptime value with
  | Ok d => Ok (mkBirthday d)
  | Raise (ValueError _) => Raise (ValueError "Birthday must be in the format DD.MM.YYYY.")
  | Raise e => Raise e
  end.

End Fields.
Export Fields.

(** The two error classes of the specification, as the program raises them:
    both are [ValueError], told apart by their text. *)
Definition ValidationError (e : exn) : Prop :=
  e = ValueError "Name cannot be empty."
  \/ e = ValueError "Phone must contain exactly 10 digits"
  \/ e = ValueError "Birthday must be in the format DD.MM.YYYY.".

Definition NotFoundError (e : exn) : Prop :=
  e = ValueError "Phone not found"
  \/ e = ValueError "Old phone not found"
  \/ e = ValueError "Contact not found".

(** ** [class Record] *)

Module Contact.

Record record : Type :=
  mkRecord { name : Name; phones : list Phone; birthday : option Birthday }.

Definition set_phones (ps : list Phone) (self : record) : record :=
  mkRecord (name self) ps (birthday self).

Definition set_birthday (b : option Birthday) (self : record) : record :=
  mkRecord (name self) (phones self) b.

(** [Record(name)] *)
Definition Record_init (name : string) : result record :=
  n ← Name_init name; Ok (mkRecord n [] None).

(** [[p.value for p in self.phones]] *)
Definition phone_values (self : record) : list string :=
  Phone_value <$> phones self.

(** [find_phone]: the first phone object whose value is [phone], with its
    place in [self.phones], which stands for the identity of the object. *)
Definition find_phone (phone : string) (self : record) : option (nat * Phone) :=
  list_find (fun p => Phone_value p = phone) (phones self).

Definition add_phone (phone : string) : method record unit :=
  values ← read phone_values;
  if bool_decide (phone ∈ values) then returns tt
  else
    p ← lift (Phone_init phone);
    update (fun self => set_phones (phones self ++ [p]) self).

Definition remove_phone (phone : string) : method record unit :=
  phone_obj ← read (find_phone phone);
  match phone_obj with
  | Some (i, _) => update (fun self => set_phones (delete i (phones self)) self)
  | None => raises (ValueError "Phone not found")
  end.

Definition edit_phone (old_phone new_phone : string) : method record unit :=
  phone_obj ← read (find_phone old_phone);
  match phone_obj with
  | Some (i, _) =>
      p ← lift (Phone_init new_phone);
      update (fun self =>
                set_phones (<[i := mkPhone (Phone_value p)]> (phones self)) self)
  | None => raises (ValueError "Old phone not found")
  end.

Definition add_birthday (birthday : string) : method record unit :=
  b ← lift (Birthday_init birthday);
  update (set_birthday (Some b)).

(** No two phones of the record hold the same value. *)
Definition unique_phones (self : record) : Prop := NoDup (phone_values self).

End Contact.

(** ** [class AddressBook] *)

Module Book.
Import Contact.

(** [self.data]: names and their records, in insertion order. *)
Definition AddressBook : Type := list (string * record).

Fixpoint dict_get (k : string) (d : AddressBook) : option record :=
  match d with
  | [] => None
  | (k', v) :: d' => if String.eqb k' k then Some v else dict_get k d'
  end.

(** [d[k] = v]: an existing key keeps its place. *)
Fixpoint dict_set (k : string) (v : record) (d : AddressBook) : AddressBook :=
  match d with
  | [] => [(k, v)]
  | (k', v') :: d' =>
      if String.eqb k' k then (k', v) :: d' else (k', v') :: dict_set k v d'
  end.

(** [del d[k]] *)
Fixpoint dict_del (k : string) (d : AddressBook) : AddressBook :=
  match d with
  | [] => []
  | (k', v') :: d' => if String.eqb k' k then d' else (k', v') :: dict_del k d'
  end.

Definition keys (d : AddressBook) : list string := fst <$> d.
Definition values (d : AddressBook) : list record := snd <$> d.

(** A dictionary holds each key once. *)
Definition well_formed (d : AddressBook) : Prop := NoDup (keys d).

Definition add_record (record : record) : method AddressBook unit :=
  update (dict_set (Name_value (name record)) record).

Definition find (name : string) : method AddressBook (option record) :=
  read (dict_get name).

Definition delete (name : string) : method AddressBook unit :=
  ks ← read keys;
  if bool_decide (name ∈ ks) then update (dict_del name)
  else raises (ValueError "Contact not found").

(** The body of the loop of [get_upcoming_birthdays] for one record: the
    line it appends, if any. *)
Definition upcoming_line (today : date) (days : Z) (record : record)
  : result (option string) :=
  match birthday record with
  | None => Ok None
  | Some b =>
      birthday_this_year ← replace_year (Birthday_value b) (year today);
      birthday_this_year ←
        (if date_lt birthday_this_year today
         then replace_year birthday_this_year (year today + 1)
         else Ok birthday_this_year);
      let days_until_birthday := days_between birthday_this_year today in
      if (0 <=? days_until_birthday) && (days_until_birthday <=? days) then
        birthday_this_year ←
          (if 5 <=? weekday birthday_this_year
           then add_days birthday_this_year (7 - weekday birthday_this_year)
           else Ok birthday_this_year);
        Ok (Some ("Name: " ++ Name_value (name record) ++ ", birthday: "
                    ++ strftime birthday_this_year)%string)
      else Ok None
  end.

Fixpoint upcoming_loop (today : date) (days : Z) (records : list record)
    (upcoming_birthdays : list string) : result (list string) :=
  match records with
  | [] => Ok upcoming_birthdays
  | record :: records' =>
      line ← upcoming_line today days record;
      upcoming_loop today days records'
        (match line with
         | Some l => upcoming_birthdays ++ [l]
         | None => upcoming_birthdays
         end)
  end.

(** [get_upcoming_birthdays(days)], run on the day [today] (the value of
    [datetime.today().date()]). *)
Definition get_upcoming_birthdays (today : date) (days : Z)
  : method AddressBook (list string) :=
  fun self => (upcoming_loop today days (values self) [], self).

End Book.

(** ** [load_data] *)

Module Storage.
Import Book.

(** What the file holds, seen through [pickle.load]. *)
Inductive contents : Type :=
| NoData                       (* no bytes: the loader runs out of input at once *)
| Dump (book : AddressBook)    (* what [save_data] wrote *)
| Damaged (e : exn).           (* bytes on which the loader raises [e] *)

(** What is at the file name: nothing, or a file. *)
Definition location : Type := option contents.

(** [open(filename, "rb")] *)
Definition open_rb (loc : location) : result contents :=
  match loc with
  | None => Raise FileNotFoundError
  | Some f => Ok f
  end.

(** [pickle.load(f)] *)
Definition pickle_load (f : contents) : result AddressBook :=
  match f with
  | NoData => Raise EOFError
  | Dump book => Ok book
  | Damaged e => Raise e
  end.

Definition load_data (loc : location) : result AddressBook :=
  match (f ← open_rb loc; pickle_load f) with
  | Ok book => Ok book
  | Raise FileNotFoundError | Raise EOFError => Ok []
  | Raise e => Raise e
  end.

End Storage.

(** ** The specification's vocabulary *)

Module Spec.
Import Contact Book.

(** [^[0-9]{10}$] *)
Definition phone_pattern (raw : string) : bool :=
  (String.length raw =? 10)%nat && all_chars chr_isascii_digit raw.

(** Ten times U+00B2 (superscript two). *)
Definition superscript_two : ascii := Ascii.ascii_of_N 178.
Definition superscript_phone : string :=
  String.concat "" (replicate 10 (String superscript_two "")).

(** A record with two phones, built by the program's own operations. *)
Definition ann : record := mkRecord (mkName "Ann") [] None.
Definition ann_two_phones : record :=
  mkRecord (mkName "Ann") [mkPhone "1111111111"; mkPhone "2222222222"] None.
Definition ann_twice_same : record :=
  mkRecord (mkName "Ann") [mkPhone "2222222222"; mkPhone "2222222222"] None.

(** Chronological order of two dates. *)
Definition before (a b : date) : Prop := toordinal a < toordinal b.

(** The occurrence of a birthday that the query looks at: the current year
    is put into the stored date; when the day so found lies strictly before
    today, the next year is put into it instead. *)
Definition occurrence (today birthday occ : date) : Prop :=
  exists this_year,
    replace_year birthday (year today) = Ok this_year
    /\ ((~ before this_year today /\ occ = this_year)
        \/ (before this_year today /\ replace_year this_year (year today + 1) = Ok occ)).

(** Whole days from today to the occurrence, and the window [0, days]. *)
Definition days_until (today occ : date) : Z := toordinal occ - toordinal today.

Definition in_window (today : date) (days : Z) (occ : date) : Prop :=
  0 <= days_until today occ <= days.

(** The line reported for a record and a date. *)
Definition line (record : record) (reported : date) : string :=
  ("Name: " ++ Name_value (name record) ++ ", birthday: " ++ strftime reported)%string.

(** The date reported for an occurrence: a Saturday or a Sunday is moved on
    by seven minus its weekday. *)
Definition reported (occ : date) : date :=
  if 5 <=? weekday occ then ord2ymd (toordinal occ + (7 - weekday occ)) else occ.

(** The query selects a record when the loop appends a line for it. *)
Definition selects (today : date) (days : Z) (record : record) : Prop :=
  exists l, upcoming_line today days record = Ok (Some l).

(** Every birthday stored in the book is a date a [date] object can hold. *)
Definition birthdays_valid (book : AddressBook) : Prop :=
  Forall (fun record => forall b, birthday record = Some b -> valid (Birthday_value b))
    (values book).

(** The texts [strptime] takes for a day, a month and a year: a day on two
    digits, on one digit, or on one digit after a blank; a month on two
    digits or on one; a year on four digits. *)
Definition day_text (t : string) (n : Z) : Prop :=
  1 <= n <= 31
  /\ (t = zfill2 n
      \/ (n <= 9 /\ (t = String (digit_chr n) "" \/ t = String " " (String (digit_chr n) "")))).

Definition month_text (t : string) (n : Z) : Prop :=
  1 <= n <= 12 /\ (t = zfill2 n \/ (n <= 9 /\ t = String (digit_chr n) "")).

Definition year_text (t : string) (n : Z) : Prop :=
  0 <= n <= 9999 /\ t = zfill4 n.

(** The texts [strptime] takes for the date [d] under ["%d.%m.%Y"]. *)
Definition strptime_text (s : string) (d : date) : Prop :=
  exists dt mt yt,
    s = (dt ++ "." ++ mt ++ "." ++ yt)%string
    /\ day_text dt (day d) /\ month_text mt (month d) /\ year_text yt (year d).

(** The date [d] written DD.MM.YYYY, with every leading zero. *)
Definition dmY_text (d : date) : string :=
  (zfill2 (day d) ++ "." ++ zfill2 (month d) ++ "." ++ zfill4 (year d))%string.

(** A text without a dot. *)
Definition no_dot (s : string) : Prop :=
  all_chars (fun c => negb (Ascii.eqb c ".")) s = true.

(** DD.MM.YYYY: two digits, a dot, two digits, a dot, four digits; the date
    the numbers give. *)
Definition dmY_pattern (s : string) : option date :=
  match s with
  | String d1 (String d2 (String p (String m1 (String m2 (String q
      (String y1 (String y2 (String y3 (String y4 EmptyString))))))))) =>
      if all_chars chr_isascii_digit
           (String d1 (String d2 (String m1 (String m2
              (String y1 (String y2 (String y3 (String y4 EmptyString))))))))
         && Ascii.eqb p "." && Ascii.eqb q "."
      then Some (mkdate
                   (digits_value 0 (String y1 (String y2 (String y3 (String y4 EmptyString)))))
                   (digits_value 0 (String m1 (String m2 EmptyString)))
                   (digits_value 0 (String d1 (String d2 EmptyString))))
      else None
  | _ => None
  end.

(** The scenario of the specification: Sunday 10.03.2024, and three
    records. *)
Definition sunday : date := mkdate 2024 3 10.
Definition anna : record :=
  mkRecord (mkName "Anna") [] (Some (mkBirthday (mkdate 2024 3 12))).
Definition ben : record :=
  mkRecord (mkName "Ben") [] (Some (mkBirthday (mkdate 2024 3 16))).
Definition cid : record :=
  mkRecord (mkName "Cid") [] (Some (mkBirthday (mkdate 1990 3 9))).
Definition scenario : AddressBook := [("Anna", anna); ("Ben", ben); ("Cid", cid)].

(** A leap-day birthday, met in 2023. *)
Definition eve : record :=
  mkRecord (mkName "Eve") [] (Some (mkBirthday (mkdate 2024 2 29))).
Definition leap_book : AddressBook := [("Anna", anna); ("Eve", eve)].
Definition a_day_of_2023 : date := mkdate 2023 3 10.

End Spec.

(** ** The command handlers and the command loop *)

Module Handlers.
Import Contact Book Storage.

(** What the handlers work on: the book in memory and what is at the file
    name.  Every key of the book holds a record object of its own, so a
    method run on the record found under a key changes the book at that key
    and nowhere else. *)
Record world : Type := mkWorld { book : AddressBook; disk : location }.

(** [sep.join(l)] *)
Definition join (sep : string) (l : list string) : string := String.concat sep l.

(** What the file system does with one write, [open(filename, "wb")]
    followed by [pickle.dump(book, f)]: the write is done; or [open] raises
    [OSError] and the file is not touched; or [open] succeeds, which empties
    the file, and the dump raises [OSError], leaving [remains] behind. *)
Inductive write : Type :=
| Written
| Refused (msg : string)
| Torn (msg : string) (remains : contents).

(** [save_data(book)], when the file system answers the write with [io]. *)
Definition save_data (io : write) : method world unit :=
  fun w =>
    match io with
    | Written => (Ok tt, mkWorld (book w) (Some (Dump (book w))))
    | Refused msg => (Raise (OSError msg), w)
    | Torn msg remains => (Raise (OSError msg), mkWorld (book w) (Some remains))
    end.

(** A method of the book, run on the book of the world. *)
Definition on_book {A} (m : method AddressBook A) : method world A :=
  fun w => let '(r, b) := m (book w) in (r, mkWorld b (disk w)).

(** A method of the record object [self] that the book holds under
    [name]. *)
Definition on_record {A} (name : string) (self : record) (m : method record A)
  : method world A :=
  fun w =>
    let '(r, self') := m self in
    (r, mkWorld (dict_set name self' (book w)) (disk w)).

(** [str(e)] *)
Definition str_exn (e : exn) : string :=
  match e with
  | ValueError msg | OverflowError msg | UnpicklingError msg | OSError msg => msg
  | FileNotFoundError => "[Errno 2] No such file or directory: 'addressbook.pkl'"
  | EOFError => "Ran out of input"
  end.

(** The decorator [input_error]: what its [except] clauses return for an
    exception.  The clauses for [IndexError] and [KeyError] have no
    counterpart here: no call of the handlers raises either. *)
Definition error_text (e : exn) : string :=
  match e with
  | ValueError msg => msg
  | _ => ("An error occurred: " ++ str_exn e)%string
  end.

Definition input_error (func : method world string) : world -> string * world :=
  fun w =>
    match func w with
    | (Ok s, w') => (s, w')
    | (Raise e, w') => (error_text e, w')
    end.

Definition add_contact_body (io : write) (args : list string) : method world string :=
  match args with
  | name :: phone :: _ =>
      found ← read (fun w => dict_get name (book w));
      '(record, message) ←
        match found with
        | None =>
            record ← lift (Record_init name);
            _ ← on_book (add_record record);
            returns (record, "Contact saved.")
        | Some record => returns (record, "Contact updated.")
        end;
      _ ← on_record name record (add_phone phone);
      _ ← save_data io;
      returns message
  | _ => returns "Usage: add <name> <phone>"
  end.

Definition add_contact (io : write) (args : list string) : world -> string * world :=
  input_error (add_contact_body io args).

Definition change_contact_body (io : write) (args : list string)
  : method world string :=
  match args with
  | [] | [_] | [_; _] => returns "Usage: change <name> <old_phone> <new_phone>"
  | [name; old_phone; new_phone] =>
      found ← read (fun w => dict_get name (book w));
      match found with
      | Some record =>
          _ ← on_record name record (edit_phone old_phone new_phone);
          _ ← save_data io;
          returns "Contact updated."
      | None => returns "Contact not found."
      end
  | _ => raises (ValueError "too many values to unpack (expected 3)")
  end.

Definition change_contact (io : write) (args : list string) : world -> string * world :=
  input_error (change_contact_body io args).

Definition show_phone_body (args : list string) : method world string :=
  match args with
  | [] => returns "Usage: phone <name>"
  | name :: _ =>
      found ← read (fun w => dict_get name (book w));
      match found with
      | Some record =>
          returns ("The phone number for " ++ name ++ " is "
                     ++ join ", " (phone_values record) ++ ".")%string
      | None => returns "Contact not found."
      end
  end.

Definition show_phone (args : list string) : world -> string * world :=
  input_error (show_phone_body args).

Definition add_birthday_body (io : write) (args : list string) : method world string :=
  match args with
  | [name; birthday] =>
      found ← read (fun w => dict_get name (book w));
      match found with
      | None => returns "Contact not found."
      | Some record =>
          _ ← on_record name record (Contact.add_birthday birthday);
          _ ← save_data io;
          returns "Birthday added."
      end
  | _ => returns "Usage: add-birthday <name> <DD.MM.YYYY>"
  end.

Definition add_birthday (io : write) (args : list string) : world -> string * world :=
  input_error (add_birthday_body io args).

Definition show_birthday_body (args : list string) : method world string :=
  match args with
  | [] => returns "Usage: show-birthday <name>"
  | name :: _ =>
      found ← read (fun w => dict_get name (book w));
      match found with
      | None => returns "Contact not found."
      | Some record =>
          match Contact.birthday record with
          | None => returns (name ++ " has no birthday set.")%string
          | Some b =>
              returns (name ++ "'s birthday is " ++ strftime (Birthday_value b) ++ ".")%string
          end
      end
  end.

Definition show_birthday (args : list string) : world -> string * world :=
  input_error (show_birthday_body args).

(** [birthday(_, book)], on the day [today]. *)
Definition birthday_body (today : date) : method world string :=
  upcoming ← on_book (get_upcoming_birthdays today 7);
  match upcoming with
  | [] => returns "No upcoming birthdays."
  | _ => returns (join (String "010" "") upcoming)
  end.

Definition birthday (today : date) : world -> string * world :=
  input_error (birthday_body today).

(** The calls [main] makes to the view. *)
Inductive event : Type :=
| DisplayMessage (message : string)
| DisplayContacts (contacts : list record)
| DisplayCommands.

Definition say (message : string) (w : world) (go_on : bool)
  : result (list event * bool) * world :=
  (Ok ([DisplayMessage message], go_on), w).

(** The [try] of the command [delete]: the book forgets the name, the book
    is written, and the answer is ready. *)
Definition delete_body (io : write) (name : string) : method world string :=
  _ ← on_book (Book.delete name);
  _ ← save_data io;
  returns "Contact deleted.".

(** One turn of the loop of [main], from [command_parts] on (the line read,
    stripped, lowered and split), on the day [today] and with [io] for what
    the file system does if the turn writes the file; the flag tells whether
    the loop goes on.  No turn writes the file twice. *)
Definition step (today : date) (io : write) (command_parts : list string)
  : method world (list event * bool) :=
  fun w =>
    match command_parts with
    | [] => (Ok ([], true), w)
    | command :: args =>
        if bool_decide (command ∈ ["close"; "exit"]) then
          match save_data io w with
          | (Ok _, w') => say "Good bye!" w' false
          | (Raise e, w') => (Raise e, w')
          end
        else if String.eqb command "hello" then
          say "Hello! How can I help you?" w true
        else if String.eqb command "add" then
          let '(message, w') := add_contact io args w in say message w' true
        else if String.eqb command "change" then
          let '(message, w') := change_contact io args w in say message w' true
        else if String.eqb command "delete" && negb (bool_decide (args = [])) then
          match delete_body io (default "" (head args)) w with
          | (Ok message, w') => say message w' true
          | (Raise (ValueError msg), w') => say msg w' true
          | (Raise e, w') => (Raise e, w')
          end
        else if String.eqb command "phone" then
          let '(message, w') := show_phone args w in say message w' true
        else if String.eqb command "all" then
          (Ok ([DisplayContacts (values (book w))], true), w)
        else if String.eqb command "add-birthday" then
          let '(message, w') := add_birthday io args w in say message w' true
        else if String.eqb command "show-birthday" then
          let '(message, w') := show_birthday args w in say message w' true
        else if String.eqb command "birthdays" then
          let '(message, w') := birthday today w in say message w' true
        else if String.eqb command "commands" then
          (Ok ([DisplayCommands], true), w)
        else say "Invalid command." w true
    end.

(** The loop of [main] over the lines read, each with the day on which it
    is read and with what the file system does with a write of that turn; it
    stops at the command that leaves the loop, at an exception, or when the
    lines are used up. *)
Fixpoint loop (inputs : list (date * write * list string)) : method world (list event) :=
  match inputs with
  | [] => returns []
  | (today, io, command_parts) :: inputs' =>
      '(events, go_on) ← step today io command_parts;
      if go_on : bool then
        events' ← loop inputs';
        returns (events ++ events')
      else returns events
  end.

(** [main], started on what is at the file name. *)
Definition main (start : location) (inputs : list (date * write * list string))
  : result (list event) * location :=
  match load_data start with
  | Raise e => (Raise e, start)
  | Ok b =>
      let '(r, w) := loop inputs (mkWorld b start) in
      (events ← r;
       Ok (DisplayMessage ("Welcome to the assistant bot!" ++ String "010" "")
             :: DisplayContacts (values b) :: DisplayCommands :: events),
       disk w)
  end.

(** What the book keeps of a record under a key: the key is the name, the
    phones are valid, the birthday is a date. *)
Definition phones_valid (record : record) : Prop :=
  Forall (fun p => is_Ok (Phone_init (Phone_value p))) (phones record).

Definition record_ok (record : record) : Prop :=
  phones_valid record
  /\ forall b, Contact.birthday record = Some b -> valid (Birthday_value b).

Definition book_ok (b : AddressBook) : Prop :=
  well_formed b
  /\ Forall (fun kr => Name_value (name kr.2) = kr.1 /\ kr.1 <> "" /\ record_ok kr.2) b.

(** The file holds the book that is in memory. *)
Definition in_sync (w : world) : Prop := disk w = Some (Dump (book w)).

(** The world with the book [b] in memory and on file. *)
Definition saved (b : AddressBook) : world := mkWorld b (Some (Dump b)).

(** The text of the [OSError] of a write that fails. *)
Definition failure (io : write) : option string :=
  match io with
  | Written => None
  | Refused msg | Torn msg _ => Some msg
  end.

(** The world a write leaves: the book in memory stays, the file is written,
    untouched, or torn. *)
Definition after_write (io : write) (w : world) : world :=
  match io with
  | Written => saved (book w)
  | Refused _ => w
  | Torn _ remains => mkWorld (book w) (Some remains)
  end.

(** The answer of a handler that has done its change and writes the file:
    its own message, or the text [input_error] makes of the [OSError]. *)
Definition answer (io : write) (message : string) : string :=
  match failure io with
  | None => message
  | Some msg => ("An error occurred: " ++ msg)%string
  end.

End Handlers.

(** ** Sample data *)

Module Sample.
Import Contact Book Storage Handlers.

Definition bob : record :=
  mkRecord (mkName "bob") [mkPhone "1111111111"; mkPhone "2222222222"] None.

(** A world with one contact, written to the file. *)
Definition bob_world : world := saved [("bob", bob)].

(** The world [main] starts in when there is no file. *)
Definition nobody : world := mkWorld [] None.

End Sample.

(** * Properties *)

(** ** Fields *)

Section PhoneField.

Lemma len_length (s : string) (n : nat) :
  len s = Z.of_nat n <-> String.length s = n.
Proof. unfold len. lia. Qed.

Lemma all_chars_weaken (p q : ascii -> bool) (s : string) :
  (forall c, p c = true -> q c = true) ->
  all_chars p s = true -> all_chars q s = true.
Proof.
  intros Hpq. induction s as [|c s IH]; simpl; [done|].
  rewrite !andb_true_iff. intros [Hc Hs]. auto.
Qed.

Lemma ascii_digit_isdigit (c : ascii) :
  chr_isascii_digit c = true -> chr_isdigit c = true.
Proof. unfold chr_isascii_digit, chr_isdigit; simpl. by intros ->. Qed.

Lemma isdigit_all_chars (s : string) :
  isdigit s = true <-> s <> "" /\ all_chars chr_isdigit s = true.
Proof.
  destruct s; simpl.
  - split; [done|by intros [? _]].
  - split; [by intros ->|by intros [_ ->]].
Qed.

Lemma Phone_init_Ok (raw : string) (p : Phone) :
  Phone_init raw = Ok p <->
  p = mkPhone raw /\ String.length raw = 10%nat /\ all_chars chr_isdigit raw = true.
Proof.
  unfold Phone_init.
  destruct (isdigit raw) eqn:Hd; simpl.
  - apply isdigit_all_chars in Hd as [_ Hall].
    destruct (len raw =? 10) eqn:Hl; simpl.
    + apply Z.eqb_eq in Hl. apply (len_length raw 10) in Hl.
      split; [by intros [= <-]|by intros [-> _]].
    + apply Z.eqb_neq in Hl. split; [done|]. intros (_ & Hlen & _).
      apply (len_length raw 10) in Hlen. done.
  - split; [done|]. intros (_ & Hlen & Hall).
    assert (isdigit raw = true) as Hd'; [|congruence].
    apply isdigit_all_chars. split; [|done]. by intros ->.
Qed.

Lemma Phone_init_Raise (raw : string) (e : exn) :
  Phone_init raw = Raise e -> e = ValueError "Phone must contain exactly 10 digits".
Proof. unfold Phone_init. case_match; congruence. Qed.

End PhoneField.

(** C3, as the code has it.  [Phone(raw)] succeeds exactly when [raw] has ten
    characters and each of them is a digit in the sense of [str.isdigit],
    which goes beyond [0-9]; then the stored value is [raw] unchanged.  Every
    string matching [^[0-9]{10}$] is accepted, and every rejected string is
    rejected with the validation error. *)
Theorem Phone_init_isdigit (raw : string) :
  (is_Ok (Phone_init raw) <->
     String.length raw = 10%nat /\ all_chars chr_isdigit raw = true)
  /\ (forall p, Phone_init raw = Ok p -> Phone_value p = raw)
  /\ (Spec.phone_pattern raw = true -> Phone_init raw = Ok (mkPhone raw))
  /\ (forall e, Phone_init raw = Raise e ->
        ValidationError e /\ ~ Spec.phone_pattern raw = true).
Proof.
  split_and!.
  - split.
    + intros [p Hp]. apply Phone_init_Ok in Hp. tauto.
    + intros [Hlen Hall]. exists (mkPhone raw). by apply Phone_init_Ok.
  - intros p Hp. apply Phone_init_Ok in Hp as [-> _]. done.
  - unfold Spec.phone_pattern. rewrite andb_true_iff, Nat.eqb_eq.
    intros [Hlen Hall]. apply Phone_init_Ok. split_and!; [done..|].
    by apply (all_chars_weaken chr_isascii_digit); [apply ascii_digit_isdigit|].
  - intros e He. split.
    + apply Phone_init_Raise in He as ->. right. by left.
    + unfold Spec.phone_pattern. rewrite andb_true_iff, Nat.eqb_eq.
      intros [Hlen Hall].
      assert (Phone_init raw = Ok (mkPhone raw)); [|congruence].
      apply Phone_init_Ok. split_and!; [done..|].
      by apply (all_chars_weaken chr_isascii_digit); [apply ascii_digit_isdigit|].
Qed.

(** C3, as stated, fails: ten superscript twos are no match of
    [^[0-9]{10}$], and [Phone] takes them. *)
Lemma Phone_init_superscripts :
  Phone_init Spec.superscript_phone = Ok (mkPhone Spec.superscript_phone)
  /\ Spec.phone_pattern Spec.superscript_phone = false.
Proof. split; reflexivity. Qed.

(** ** Records *)

Section RecordPhones.
Import Contact.

Lemma find_phone_None (phone : string) (self : record) :
  find_phone phone self = None <-> phone ∉ phone_values self.
Proof.
  unfold find_phone, phone_values. rewrite list_find_None, Forall_forall.
  split.
  - intros H (p & -> & Hp)%list_elem_of_fmap. by apply (H p).
  - intros H p Hp <-. apply H. by apply list_elem_of_fmap_2.
Qed.

(** What [find_phone] finds is the first place holding the value. *)
Lemma find_phone_Some (phone : string) (self : record) (i : nat) (p : Phone) :
  find_phone phone self = Some (i, p) <->
  phones self !! i = Some p /\ Phone_value p = phone
  /\ forall j, (j < i)%nat -> phone_values self !! j <> Some phone.
Proof.
  unfold find_phone, phone_values. rewrite list_find_Some.
  split; intros (Hi & Hp & Hfirst); split_and!; try done.
  - intros j Hj. rewrite list_lookup_fmap.
    destruct (phones self !! j) as [q|] eqn:Hq; simpl; [|done].
    intros [= Heq]. by apply (Hfirst j q).
  - intros j q Hq Hj Heq. apply (Hfirst j Hj).
    by rewrite list_lookup_fmap, Hq, <- Heq.
Qed.

Lemma find_phone_present (phone : string) (self : record) :
  phone ∈ phone_values self -> exists i p, find_phone phone self = Some (i, p).
Proof.
  intros Hin. destruct (find_phone phone self) as [[i p]|] eqn:Hf; [eauto|].
  by apply find_phone_None in Hf.
Qed.

Lemma add_phone_present (phone : string) (self : record) :
  phone ∈ phone_values self -> add_phone phone self = (Ok tt, self).
Proof.
  intros Hin. unfold add_phone, mbind, method_bind, read; simpl.
  by rewrite bool_decide_eq_true_2.
Qed.

Lemma add_phone_absent (phone : string) (self : record) :
  phone ∉ phone_values self ->
  add_phone phone self =
    match Phone_init phone with
    | Ok p => (Ok tt, set_phones (phones self ++ [p]) self)
    | Raise e => (Raise e, self)
    end.
Proof.
  intros Hin. unfold add_phone, mbind, method_bind, read, lift, update; simpl.
  rewrite bool_decide_eq_false_2 by done. by destruct (Phone_init phone).
Qed.

Lemma edit_phone_unfold (old_phone new_phone : string) (self : record) :
  edit_phone old_phone new_phone self =
    match find_phone old_phone self with
    | Some (i, _) =>
        match Phone_init new_phone with
        | Ok p => (Ok tt, set_phones (<[i := mkPhone (Phone_value p)]> (phones self)) self)
        | Raise e => (Raise e, self)
        end
    | None => (Raise (ValueError "Old phone not found"), self)
    end.
Proof.
  unfold edit_phone, mbind, method_bind, read, lift, update, raises; simpl.
  destruct (find_phone old_phone self) as [[i p]|]; [|done].
  by destruct (Phone_init new_phone).
Qed.

Lemma remove_phone_unfold (phone : string) (self : record) :
  remove_phone phone self =
    match find_phone phone self with
    | Some (i, _) => (Ok tt, set_phones (delete i (phones self)) self)
    | None => (Raise (ValueError "Phone not found"), self)
    end.
Proof.
  unfold remove_phone, mbind, method_bind, read, update, raises; simpl.
  by destruct (find_phone phone self) as [[i p]|].
Qed.

(** The two operations that do keep the phones distinct. *)
Lemma add_phone_unique (phone : string) (self : record) :
  unique_phones self -> unique_phones (add_phone phone self).2.
Proof.
  intros Hu. destruct (decide (phone ∈ phone_values self)) as [Hin|Hin].
  - by rewrite add_phone_present.
  - rewrite add_phone_absent by done.
    destruct (Phone_init phone) as [p|e] eqn:Hp; [|done].
    apply Phone_init_Ok in Hp as (-> & _). simpl.
    unfold unique_phones, phone_values in *. simpl. rewrite fmap_app.
    apply NoDup_app. split_and!; [done| |apply NoDup_singleton].
    intros x Hx [->|[]%elem_of_nil]%elem_of_cons. done.
Qed.

Lemma remove_phone_unique (phone : string) (self : record) :
  unique_phones self -> unique_phones (remove_phone phone self).2.
Proof.
  intros Hu. rewrite remove_phone_unfold.
  destruct (find_phone phone self) as [[i p]|]; [|done].
  unfold unique_phones, phone_values in *. simpl. rewrite list_fmap_delete.
  eapply sublist_NoDup; [done|apply sublist_delete].
Qed.

End RecordPhones.

(** C7.  [add_phone(p)] on a record that already holds the value [p] returns
    without an error and leaves the record as it was; so for a valid [p] a
    second [add_phone(p)] changes nothing, whatever the record was before the
    first. *)
Theorem add_phone_idempotent (self : Contact.record) (p : string) :
  (p ∈ Contact.phone_values self -> Contact.add_phone p self = (Ok tt, self))
  /\ (is_Ok (Phone_init p) ->
      let once := Contact.add_phone p self in
      once.1 = Ok tt
      /\ p ∈ Contact.phone_values once.2
      /\ Contact.add_phone p once.2 = (Ok tt, once.2)
      /\ length (Contact.phones (Contact.add_phone p once.2).2)
         = length (Contact.phones once.2)).
Proof.
  split; [apply add_phone_present|].
  intros [q Hq]. simpl.
  assert (p ∈ Contact.phone_values (Contact.add_phone p self).2) as Hin.
  { destruct (decide (p ∈ Contact.phone_values self)) as [Hin|Hin].
    - by rewrite add_phone_present.
    - rewrite add_phone_absent, Hq by done. simpl.
      apply Phone_init_Ok in Hq as (-> & _).
      unfold Contact.phone_values. simpl. rewrite fmap_app.
      apply elem_of_app. right. by apply list_elem_of_singleton. }
  split_and!.
  - destruct (decide (p ∈ Contact.phone_values self)) as [Hin'|Hin'].
    + by rewrite add_phone_present.
    + by rewrite add_phone_absent, Hq.
  - done.
  - by apply add_phone_present.
  - by rewrite (add_phone_present _ _ Hin).
Qed.

(** C5.  [edit_phone(old, new)]: without a phone of value [old] it raises the
    not-found error; with one, an invalid [new] raises the validation error;
    in both cases the record is left as it was.  When it succeeds the first
    phone of value [old] now holds [new], at the same place, and every other
    place of the list is unchanged. *)
Theorem edit_phone_atomic (self : Contact.record) (old new : string) :
  (old ∉ Contact.phone_values self ->
     exists e, Contact.edit_phone old new self = (Raise e, self) /\ NotFoundError e)
  /\ (old ∈ Contact.phone_values self -> ~ is_Ok (Phone_init new) ->
     exists e, Contact.edit_phone old new self = (Raise e, self) /\ ValidationError e)
  /\ (old ∈ Contact.phone_values self -> is_Ok (Phone_init new) ->
     exists (i : nat) self',
       Contact.edit_phone old new self = (Ok tt, self')
       /\ Contact.phone_values self !! i = Some old
       /\ (forall j, (j < i)%nat -> Contact.phone_values self !! j <> Some old)
       /\ Contact.phone_values self' = <[i := new]> (Contact.phone_values self)
       /\ length (Contact.phones self') = length (Contact.phones self)
       /\ Contact.phone_values self' !! i = Some new
       /\ (forall j, j <> i -> Contact.phones self' !! j = Contact.phones self !! j)
       /\ Contact.name self' = Contact.name self
       /\ Contact.birthday self' = Contact.birthday self).
Proof.
  rewrite edit_phone_unfold. split_and!.
  - intros Hout%find_phone_None. rewrite Hout.
    eexists; split; [done|]. right; left; done.
  - intros (i & p & Hf)%find_phone_present Hbad. rewrite Hf.
    destruct (Phone_init new) as [q|e] eqn:Hq; [destruct Hbad; by exists q|].
    exists e. split; [done|]. apply Phone_init_Raise in Hq as ->. right; left; done.
  - intros (i & p & Hf)%find_phone_present [q Hq]. rewrite Hf, Hq.
    apply Phone_init_Ok in Hq as (-> & _). simpl.
    apply find_phone_Some in Hf as (Hi & Hp & Hfirst).
    exists i. eexists. split; [done|].
    assert (i < length (Contact.phones self))%nat as Hlt by by eapply lookup_lt_Some.
    unfold Contact.phone_values in *. simpl. split_and!.
    + by rewrite list_lookup_fmap, Hi; simpl; rewrite Hp.
    + done.
    + by rewrite list_fmap_insert.
    + by rewrite length_insert.
    + by rewrite list_lookup_fmap, list_lookup_insert_eq.
    + intros j Hj. by rewrite list_lookup_insert_ne.
    + done.
    + done.
Qed.

(** C4 at work: a record with the two phones 1111111111 and 2222222222, built
    with [add_phone], has distinct phones; [edit_phone] of the first into the
    value of the second succeeds and leaves two phones of the same value. *)
Theorem edit_phone_breaks_uniqueness :
  (Contact.add_phone "2222222222" (Contact.add_phone "1111111111" Spec.ann).2).2
    = Spec.ann_two_phones
  /\ Contact.unique_phones Spec.ann_two_phones
  /\ Contact.edit_phone "1111111111" "2222222222" Spec.ann_two_phones
     = (Ok tt, Spec.ann_twice_same)
  /\ ~ Contact.unique_phones Spec.ann_twice_same.
Proof.
  split_and!.
  - reflexivity.
  - unfold Contact.unique_phones. simpl. apply (bool_decide_unpack _). reflexivity.
  - reflexivity.
  - unfold Contact.unique_phones. simpl. apply (bool_decide_unpack _). reflexivity.
Qed.

(** ** The address book as a dictionary *)

Section Dictionary.
Import Contact Book.

Lemma dict_get_None (k : string) (d : AddressBook) :
  dict_get k d = None <-> k ∉ keys d.
Proof.
  unfold keys. induction d as [|[k' v] d IH]; simpl.
  - split; [intros _; apply not_elem_of_nil|done].
  - rewrite not_elem_of_cons. destruct (String.eqb_spec k' k) as [->|Hne].
    + split; [done|]. by intros [? _].
    + rewrite IH. split; [by split|by intros [_ ?]].
Qed.

Lemma dict_del_other (k k' : string) (d : AddressBook) :
  k' <> k -> dict_get k' (dict_del k d) = dict_get k' d.
Proof.
  intros Hne. induction d as [|[k0 v] d IH]; simpl; [done|].
  destruct (String.eqb_spec k0 k) as [->|Hk0]; simpl.
  - destruct (String.eqb_spec k k'); [congruence|done].
  - by rewrite IH.
Qed.

Lemma dict_del_sublist (k : string) (d : AddressBook) :
  dict_del k d `sublist_of` d.
Proof.
  induction d as [|[k0 v] d IH]; simpl; [done|].
  destruct (String.eqb k0 k); [by apply sublist_cons|by apply sublist_skip].
Qed.

Lemma dict_del_keys (k : string) (d : AddressBook) :
  well_formed d -> k ∉ keys (dict_del k d).
Proof.
  unfold well_formed, keys. induction d as [|[k0 v] d IH]; simpl.
  - intros _. apply not_elem_of_nil.
  - intros [Hk0 Hd]%NoDup_cons. destruct (String.eqb_spec k0 k) as [->|Hne]; simpl.
    + done.
    + apply not_elem_of_cons. split; [done|by apply IH].
Qed.

Lemma dict_del_length (k : string) (d : AddressBook) :
  k ∈ keys d -> S (length (dict_del k d)) = length d.
Proof.
  unfold keys. induction d as [|[k0 v] d IH]; simpl.
  - by intros ?%elem_of_nil.
  - intros [->|Hin]%elem_of_cons.
    + by rewrite String.eqb_refl.
    + destruct (String.eqb k0 k); simpl; [done|]. by rewrite IH.
Qed.

Lemma dict_del_well_formed (k : string) (d : AddressBook) :
  well_formed d -> well_formed (dict_del k d).
Proof.
  unfold well_formed, keys. intros Hd.
  eapply sublist_NoDup; [done|]. apply fmap_sublist, dict_del_sublist.
Qed.

Lemma dict_set_well_formed (k : string) (v : record) (d : AddressBook) :
  well_formed d -> well_formed (dict_set k v d).
Proof.
  unfold well_formed, keys.
  assert (forall d, fst <$> dict_set k v d = (fst <$> d) \/
                    (k ∉ fst <$> d) /\ fst <$> dict_set k v d = (fst <$> d) ++ [k]) as Hkeys.
  { clear d. induction d as [|[k0 v0] d IH]; simpl.
    - right. split; [apply not_elem_of_nil|done].
    - destruct (String.eqb_spec k0 k) as [->|Hne]; rewrite !fmap_cons; simpl; [by left|].
      destruct IH as [IH|[Hout IH]]; rewrite IH; [by left|right].
      split; [|done]. apply not_elem_of_cons. by split. }
  intros Hd. destruct (Hkeys d) as [->|[Hout ->]]; [done|].
  apply NoDup_app. split_and!; [done| |apply NoDup_singleton].
  intros x Hx ->%list_elem_of_singleton. done.
Qed.

Lemma delete_unfold (name : string) (book : AddressBook) :
  Book.delete name book =
    if bool_decide (name ∈ keys book) then (Ok tt, dict_del name book)
    else (Raise (ValueError "Contact not found"), book).
Proof.
  unfold Book.delete, mbind, method_bind, read, update, raises; simpl.
  by case_bool_decide.
Qed.

End Dictionary.

(** C6.  [delete(name)] on a book without the key [name] raises the not-found
    error and leaves the book as it was.  On a book with the key it returns,
    the key is gone, every other key still maps to the record it had (the
    remaining entries keep their order), and the book is one entry
    shorter. *)
Theorem delete_exactly_one (book : Book.AddressBook) (name : string) :
  (name ∉ Book.keys book ->
     exists e, Book.delete name book = (Raise e, book) /\ NotFoundError e)
  /\ (Book.well_formed book -> name ∈ Book.keys book ->
     exists book',
       Book.delete name book = (Ok tt, book')
       /\ Book.dict_get name book' = None
       /\ (forall k, k <> name -> Book.dict_get k book' = Book.dict_get k book)
       /\ S (length book') = length book
       /\ book' `sublist_of` book
       /\ Book.well_formed book').
Proof.
  rewrite delete_unfold. split.
  - intros Hout. rewrite bool_decide_eq_false_2 by done.
    eexists; split; [done|]. right; right; done.
  - intros Hwf Hin. rewrite bool_decide_eq_true_2 by done.
    eexists; split; [done|]. split_and!.
    + by apply dict_get_None, dict_del_keys.
    + intros k Hk. by apply dict_del_other.
    + by apply dict_del_length.
    + apply dict_del_sublist.
    + by apply dict_del_well_formed.
Qed.

(** ** Loading *)

(** C9.  [load_data] returns an empty book when there is no file and when the
    file holds no data, and it raises only on a file whose data the loader
    rejects with another error than running out of input. *)
Theorem load_data_missing_or_empty :
  Storage.load_data None = Ok []
  /\ Storage.load_data (Some Storage.NoData) = Ok []
  /\ Book.values [] = []
  /\ (forall book, Storage.load_data (Some (Storage.Dump book)) = Ok book)
  /\ (forall loc e, Storage.load_data loc = Raise e ->
        loc = Some (Storage.Damaged e) /\ e <> EOFError /\ e <> FileNotFoundError).
Proof.
  split_and!; try reflexivity.
  intros [[| |e']|] e; simpl; try discriminate.
  destruct e'; simpl; intros [= <-]; done.
Qed.

(** ** Calendar arithmetic *)

Ltac leap_cases y :=
  unfold is_leap in *;
  let H4 := fresh "H4" in let H100 := fresh "H100" in let H400 := fresh "H400" in
  destruct (y mod 4 =? 0) eqn:H4; destruct (y mod 100 =? 0) eqn:H100;
  destruct (y mod 400 =? 0) eqn:H400; simpl in *;
  rewrite ?Z.eqb_eq, ?Z.eqb_neq in *.

Ltac month_cases m :=
  let H := fresh in
  assert (m = 1 \/ m = 2 \/ m = 3 \/ m = 4 \/ m = 5 \/ m = 6 \/ m = 7 \/ m = 8
          \/ m = 9 \/ m = 10 \/ m = 11 \/ m = 12) as H by lia;
  destruct H as [->|[->|[->|[->|[->|[->|[->|[->|[->|[->|[->| ->]]]]]]]]]]].

Lemma days_before_year_succ y :
  days_before_year (y + 1) = days_before_year y + 365 + (if is_leap y then 1 else 0).
Proof.
  unfold days_before_year. replace (y + 1 - 1) with y by lia.
  leap_cases y; Z.div_mod_to_equations; lia.
Qed.

Lemma days_before_year_mono y y' :
  y <= y' -> days_before_year y + 365 * (y' - y) <= days_before_year y'.
Proof. unfold days_before_year. intros. Z.div_mod_to_equations; lia. Qed.

Lemma day_of_year_bounds y m d :
  1 <= m <= 12 -> 1 <= d <= days_in_month y m ->
  1 <= days_before_month y m + d <= 365 + (if is_leap y then 1 else 0).
Proof.
  intros Hm Hd. unfold days_before_month, days_in_month in *.
  destruct (is_leap y); month_cases m; simpl in *; lia.
Qed.

Lemma toordinal_bounds d : valid d -> 1 <= toordinal d <= MAXORDINAL.
Proof.
  intros (Hy & Hm & Hd). unfold toordinal, ymd2ord.
  pose proof (day_of_year_bounds _ _ _ Hm Hd) as Hdoy.
  unfold MINYEAR, MAXYEAR, MAXORDINAL in *.
  pose proof (days_before_year_mono 1 (year d) ltac:(lia)) as H1.
  change (days_before_year 1) with 0 in H1.
  destruct (decide (year d = 9999)) as [E|Hne]; [rewrite E in *|].
  - change (is_leap 9999) with false in Hdoy. change (days_before_year 9999) with 3651694. lia.
  - pose proof (days_before_year_mono (year d + 1) 9999 ltac:(lia)) as H2.
    rewrite days_before_year_succ in H2. change (days_before_year 9999) with 3651694 in H2.
    destruct (is_leap (year d)); lia.
Qed.

Lemma ord2ymd_toordinal n :
  1 <= n <= MAXORDINAL -> valid (ord2ymd n) /\ toordinal (ord2ymd n) = n.
Proof.
  intros Hn. unfold ord2ymd, MAXORDINAL, DI400Y, DI100Y, DI4Y in *.
  set (n0 := n - 1).
  set (n400 := n0 / 146097). set (r1 := n0 mod 146097).
  set (n100 := r1 / 36524). set (r2 := r1 mod 36524).
  set (n4 := r2 / 1461). set (r3 := r2 mod 1461).
  set (n1 := r3 / 365). set (r4 := r3 mod 365).
  assert (0 <= n0 <= 3652058) as Hn0 by (unfold n0; lia).
  assert (n0 = 146097 * n400 + r1 /\ 0 <= r1 < 146097) as [E1 B1]
    by (unfold n400, r1; Z.div_mod_to_equations; lia).
  assert (r1 = 36524 * n100 + r2 /\ 0 <= r2 < 36524) as [E2 B2]
    by (unfold n100, r2; Z.div_mod_to_equations; lia).
  assert (r2 = 1461 * n4 + r3 /\ 0 <= r3 < 1461) as [E3 B3]
    by (unfold n4, r3; Z.div_mod_to_equations; lia).
  assert (r3 = 365 * n1 + r4 /\ 0 <= r4 < 365) as [E4 B4]
    by (unfold n1, r4; Z.div_mod_to_equations; lia).
  assert (n = n0 + 1) as En by (unfold n0; lia).
  clearbody n0 n400 r1 n100 r2 n4 r3 n1 r4.
  assert (0 <= n400 <= 24 /\ 0 <= n100 <= 4 /\ 0 <= n4 <= 24 /\ 0 <= n1 <= 4)
    as (B400 & B100 & B4' & B1') by lia.
  destruct ((n1 =? 4) || (n100 =? 4)) eqn:Hend.
  - (* the last day of a leap year *)
    apply orb_true_iff in Hend. rewrite !Z.eqb_eq in Hend.
    set (y := n400 * 400 + 1 + n100 * 100 + n4 * 4 + n1 - 1).
    assert (y = 400 * n400 + 100 * n100 + 4 * n4 + n1) as Ey by (unfold y; lia).
    clearbody y.
    assert (is_leap y = true) as Hleap.
    { leap_cases y; try done; Z.div_mod_to_equations; lia. }
    assert (days_before_year y = n0 - 365) as Hdby.
    { unfold days_before_year. Z.div_mod_to_equations; lia. }
    unfold valid, toordinal, ymd2ord, days_in_month, days_before_month,
      MINYEAR, MAXYEAR; simpl.
    rewrite Hleap, Hdby; simpl. lia.
  - apply orb_false_iff in Hend. rewrite !Z.eqb_neq in Hend.
    set (y := n400 * 400 + 1 + n100 * 100 + n4 * 4 + n1).
    assert (y = 400 * n400 + 100 * n100 + 4 * n4 + n1 + 1) as Ey by (unfold y; lia).
    clearbody y.
    set (leapyear := (n1 =? 3) && (negb (n4 =? 24) || (n100 =? 3))).
    assert (is_leap y = leapyear) as Hleap.
    { unfold leapyear.
      destruct (n1 =? 3) eqn:G1; destruct (n4 =? 24) eqn:G4;
        destruct (n100 =? 3) eqn:G100; simpl;
        rewrite ?Z.eqb_eq, ?Z.eqb_neq in *;
        leap_cases y; try done; Z.div_mod_to_equations; lia. }
    assert (days_before_year y = n0 - r4) as Hdby.
    { unfold days_before_year. Z.div_mod_to_equations; lia. }
    assert (1 <= y <= 9999) as Hy by lia.
    rewrite Z.shiftr_div_pow2 by lia. change (2 ^ 5) with 32.
    set (mo := (r4 + 50) / 32).
    assert (32 * mo <= r4 + 50 < 32 * mo + 32) as Hmo
      by (unfold mo; Z.div_mod_to_equations; lia).
    clearbody mo leapyear.
    unfold valid, toordinal, ymd2ord, days_in_month, days_before_month,
      MINYEAR, MAXYEAR.
    destruct leapyear; month_cases mo; simpl;
      (match goal with |- context [?a <? ?b] => destruct (Z.ltb_spec a b) end);
      cbn [year month day]; rewrite Hleap, Hdby; simpl; lia.
Qed.

Lemma ordinal_year_lt a b :
  valid a -> valid b -> year a < year b -> toordinal a < toordinal b.
Proof.
  intros (Hya & Hma & Hda) (Hyb & Hmb & Hdb) Hlt. unfold toordinal, ymd2ord.
  pose proof (day_of_year_bounds _ _ _ Hma Hda) as Ha.
  pose proof (day_of_year_bounds _ _ _ Hmb Hdb) as Hb.
  pose proof (days_before_year_mono (year a + 1) (year b) ltac:(lia)) as Hmono.
  rewrite days_before_year_succ in Hmono. lia.
Qed.

Lemma ordinal_month_lt y m d m' d' :
  1 <= m <= 12 -> 1 <= d <= days_in_month y m ->
  1 <= m' <= 12 -> 1 <= d' <= days_in_month y m' ->
  m < m' -> ymd2ord y m d < ymd2ord y m' d'.
Proof.
  intros Hm Hd Hm' Hd' Hlt. unfold ymd2ord, days_before_month, days_in_month in *.
  destruct (is_leap y); month_cases m; simpl in *; month_cases m'; simpl in *; lia.
Qed.

Lemma date_lt_spec a b :
  date_lt a b = true <->
  year a < year b
  \/ (year a = year b /\ (month a < month b \/ (month a = month b /\ day a < day b))).
Proof.
  unfold date_lt.
  rewrite !orb_true_iff, !andb_true_iff, !orb_true_iff, !andb_true_iff,
    !Z.ltb_lt, !Z.eqb_eq. tauto.
Qed.

Lemma date_lt_ordinal a b :
  valid a -> valid b -> (date_lt a b = true <-> toordinal a < toordinal b).
Proof.
  intros Ha Hb. rewrite date_lt_spec.
  destruct (Z.lt_trichotomy (year a) (year b)) as [Hy|[Hy|Hy]].
  - pose proof (ordinal_year_lt a b Ha Hb Hy). split; [done|lia].
  - destruct Ha as (Hya & Hma & Hda), Hb as (Hyb & Hmb & Hdb).
    unfold toordinal. rewrite <- Hy in *.
    destruct (Z.lt_trichotomy (month a) (month b)) as [Hm|[Hm|Hm]].
    + pose proof (ordinal_month_lt _ _ _ _ _ Hma Hda Hmb Hdb Hm). split; [done|lia].
    + rewrite <- Hm. unfold ymd2ord. lia.
    + pose proof (ordinal_month_lt _ _ _ _ _ Hmb Hdb Hma Hda Hm). lia.
  - pose proof (ordinal_year_lt b a Hb Ha Hy). lia.
Qed.

Lemma toordinal_inj a b : valid a -> valid b -> toordinal a = toordinal b -> a = b.
Proof.
  intros Ha Hb Heq.
  pose proof (date_lt_ordinal a b Ha Hb) as Hab.
  pose proof (date_lt_ordinal b a Hb Ha) as Hba.
  rewrite date_lt_spec in Hab, Hba.
  destruct a as [ya ma da], b as [yb mb db]; simpl in *.
  assert (ya = yb /\ ma = mb /\ da = db) as (-> & -> & ->) by lia. done.
Qed.

Lemma date_new_Ok y m d dt :
  date_new y m d = Ok dt <-> dt = mkdate y m d /\ valid (mkdate y m d).
Proof.
  unfold date_new, valid; simpl.
  repeat (case_match; simpl in *);
    rewrite ?negb_true_iff, ?negb_false_iff, ?andb_true_iff, ?andb_false_iff,
      ?Z.leb_le, ?Z.leb_gt in *; split; try done; try (intros [= <-]; split; [done|lia]);
    intros [-> ?]; try done; lia.
Qed.

Lemma replace_year_next d y :
  valid d -> forall d', replace_year d (y + 1) = Ok d' -> year d = y ->
  365 <= toordinal d' - toordinal d <= 366.
Proof.
  intros (Hy & Hm & Hd) d' [-> (Hy' & Hm' & Hd')]%date_new_Ok Ey. simpl in *.
  unfold toordinal, ymd2ord; simpl. rewrite Ey in *. rewrite days_before_year_succ.
  unfold days_before_month, days_in_month in *.
  destruct (is_leap y), (is_leap (y + 1)) eqn:Hl; month_cases (month d); simpl in *; try lia.
Qed.

(** ** Parsing and printing dates *)

Lemma append_cons (x : ascii) (a b : string) :
  (String x a ++ b = String x (a ++ b))%string.
Proof. reflexivity. Qed.

Lemma append_assoc (a b c : string) : ((a ++ b) ++ c = a ++ (b ++ c))%string.
Proof. induction a as [|x a IH]; [done|]. by rewrite !append_cons, IH. Qed.

Lemma append_nil_r (a : string) : (a ++ "" = a)%string.
Proof. induction a as [|x a IH]; [done|]. by rewrite append_cons, IH. Qed.

Lemma one_char_elem (p : ascii -> bool) (s : string) (m : matching) :
  m ∈ one_char p s <->
  exists c, p c = true /\ s = String c (rest m) /\ consumed m = String c "" /\ groups m = [].
Proof.
  destruct s as [|c s]; simpl.
  - split; [by intros ?%elem_of_nil|by intros (c & _ & ? & _)].
  - destruct (p c) eqn:Hp.
    + rewrite list_elem_of_singleton. split.
      * intros ->. by exists c.
      * intros (c' & _ & [= <- ->] & Hc & Hg). destruct m; simpl in *; by subst.
    + split; [by intros ?%elem_of_nil|]. intros (c' & Hp' & [= <- _] & _). congruence.
Qed.

Lemma run_sound (r : re) (s : string) (m : matching) :
  m ∈ run r s -> lang r (consumed m) (groups m) /\ s = (consumed m ++ rest m)%string.
Proof.
  revert s m. induction r as [c|lo hi| |r1 IH1 r2 IH2|r1 IH1 r2 IH2|name r IH]; intros s m; simpl.
  - intros (c' & ->%Ascii.eqb_eq & -> & -> & ->)%one_char_elem. done.
  - intros (c' & Hc & -> & -> & ->)%one_char_elem. split; [by exists c'|done].
  - intros (c' & Hc & -> & -> & ->)%one_char_elem. split; [by exists c'|done].
  - intros (m1 & (m2 & ->%list_elem_of_singleton & H2)%list_elem_of_bind & H1)%list_elem_of_bind.
    apply IH1 in H1 as [L1 ->]. apply IH2 in H2 as [L2 E2]. simpl. split.
    + by exists (consumed m1), (groups m1), (consumed m2), (groups m2).
    + by rewrite E2, append_assoc.
  - intros [H|H]%elem_of_app; [apply IH1 in H as [? ?]|apply IH2 in H as [? ?]]; auto.
  - intros (m' & ->%list_elem_of_singleton & H)%list_elem_of_bind.
    apply IH in H as [L ->]. simpl. split; [by exists (groups m')|done].
Qed.

Lemma run_complete (r : re) (t : string) (gs : list (string * string)) (tail : string) :
  lang r t gs -> mkmatching t gs tail ∈ run r (t ++ tail)%string.
Proof.
  revert t gs tail. induction r as [c|lo hi| |r1 IH1 r2 IH2|r1 IH1 r2 IH2|name r IH];
    intros t gs tail; simpl.
  - intros [-> ->]. apply one_char_elem. exists c. by rewrite Ascii.eqb_refl.
  - intros (c & -> & -> & Hc). apply one_char_elem. by exists c.
  - intros (c & -> & -> & Hc). apply one_char_elem. by exists c.
  - intros (t1 & g1 & t2 & g2 & L1 & L2 & -> & ->).
    apply list_elem_of_bind. exists (mkmatching t1 g1 (t2 ++ tail)%string).
    split; [|rewrite append_assoc; by apply IH1].
    apply list_elem_of_bind. exists (mkmatching t2 g2 tail).
    split; [by apply list_elem_of_singleton|by apply IH2].
  - intros [L|L]; apply elem_of_app; [left; by apply IH1|right; by apply IH2].
  - intros (g & L & ->). apply list_elem_of_bind. exists (mkmatching t g tail).
    split; [by apply list_elem_of_singleton|by apply IH].
Qed.

(** Characters *)

Lemma ord_bounds (c : ascii) : 0 <= ord c < 256.
Proof. unfold ord. pose proof (N_ascii_bounded c). lia. Qed.

Lemma chr_ord (c : ascii) : ascii_of_N (Z.to_N (ord c)) = c.
Proof. unfold ord. by rewrite N2Z.id, ascii_N_embedding. Qed.

Lemma ord_digit_chr (k : Z) : 0 <= k <= 9 -> ord (digit_chr k) = 48 + k.
Proof.
  intros Hk. unfold ord, digit_chr. rewrite N_ascii_embedding by lia. lia.
Qed.

Lemma digit_chr_ord (c : ascii) :
  chr_isdecimal c = true -> c = digit_chr (ord c - 48) /\ 0 <= ord c - 48 <= 9.
Proof.
  unfold chr_isdecimal. simpl. rewrite andb_true_iff, !Z.leb_le. intros H.
  split; [|lia]. unfold digit_chr. replace (48 + (ord c - 48)) with (ord c) by lia.
  by rewrite chr_ord.
Qed.

Lemma chr_in_range (c : ascii) (lo : Z) (len : Z) :
  lo <= ord c < lo + len ->
  c ∈ (fun k => ascii_of_N (Z.to_N k)) <$> seqZ lo len.
Proof.
  intros H. apply list_elem_of_fmap. exists (ord c). split; [by rewrite chr_ord|].
  apply elem_of_seqZ. lia.
Qed.

Lemma range_test (lo hi : Z) (c : ascii) :
  (lo <=? ord c) && (ord c <=? hi) = true ->
  lo <= ord c < lo + (hi - lo + 1).
Proof. rewrite andb_true_iff, !Z.leb_le. lia. Qed.

Ltac char_cases H :=
  apply range_test, chr_in_range in H; vm_compute in H;
  repeat (apply elem_of_cons in H as [->|H]); [..|by apply elem_of_nil in H].

Ltac digit_cases H := unfold chr_isdecimal in H; cbv zeta in H; char_cases H.

Ltac range_cases n lo len :=
  let H := fresh in
  assert (n ∈ seqZ lo len) as H by (apply elem_of_seqZ; lia);
  vm_compute in H;
  repeat (apply elem_of_cons in H as [->|H]); [..|by apply elem_of_nil in H].

Ltac in_run :=
  vm_compute; repeat first [apply list_elem_of_here | apply list_elem_of_further].

Lemma lang_re_d (t : string) (gs : list (string * string)) :
  lang re_d t gs <-> gs = [("d", t)] /\ exists n, Spec.day_text t n.
Proof.
  split.
  - intros (g & H & ->). simpl in H.
    destruct H as [H|[H|[H|[H|H]]]]; cbv [String.append] in *.
    + destruct H as (t1 & g1 & t2 & g2 & [-> ->] & (c2 & -> & -> & H2) & -> & ->).
      char_cases H2; (split; [done|]); [exists 30|exists 31]; (split; [lia|by left]).
    + destruct H as (t1 & g1 & t2 & g2 & (c1 & -> & -> & H1) & (c2 & -> & -> & H2) & -> & ->).
      char_cases H1; digit_cases H2; (split; [done|]);
        match goal with |- context [String ?a (String ?b "")] =>
          exists (10 * (ord a - 48) + (ord b - 48)) end;
        (split; [by vm_compute|by left]).
    + destruct H as (t1 & g1 & t2 & g2 & [-> ->] & (c2 & -> & -> & H2) & -> & ->).
      char_cases H2; (split; [done|]);
        match goal with |- context [String ?a (String ?b "")] =>
          exists (10 * (ord a - 48) + (ord b - 48)) end;
        (split; [by vm_compute|by left]).
    + destruct H as (c & -> & -> & H1).
      char_cases H1; (split; [done|]);
        match goal with |- context [String ?a ""] => exists (ord a - 48) end;
        (split; [by vm_compute|right; split; [by vm_compute|by left]]).
    + destruct H as (t1 & g1 & t2 & g2 & [-> ->] & (c2 & -> & -> & H2) & -> & ->).
      char_cases H2; (split; [done|]);
        match goal with |- context [String _ (String ?b "")] => exists (ord b - 48) end;
        (split; [by vm_compute|right; split; [by vm_compute|by right]]).
  - intros [-> (n & Hn & Ht)].
    range_cases n 1 31; destruct Ht as [->|[H9 [->| ->]]]; try (by vm_compute in H9);
      match goal with |- lang re_d ?t _ =>
        apply (run_sound re_d t (mkmatching t [("d", t)] ""))
      end; in_run.
Qed.

Lemma lang_re_m (t : string) (gs : list (string * string)) :
  lang re_m t gs <-> gs = [("m", t)] /\ exists n, Spec.month_text t n.
Proof.
  split.
  - intros (g & H & ->). simpl in H.
    destruct H as [H|[H|H]]; cbv [String.append] in *.
    + destruct H as (t1 & g1 & t2 & g2 & [-> ->] & (c2 & -> & -> & H2) & -> & ->).
      char_cases H2; (split; [done|]);
        match goal with |- context [String ?a (String ?b "")] =>
          exists (10 * (ord a - 48) + (ord b - 48)) end;
        (split; [by vm_compute|by left]).
    + destruct H as (t1 & g1 & t2 & g2 & [-> ->] & (c2 & -> & -> & H2) & -> & ->).
      char_cases H2; (split; [done|]);
        match goal with |- context [String ?a (String ?b "")] =>
          exists (10 * (ord a - 48) + (ord b - 48)) end;
        (split; [by vm_compute|by left]).
    + destruct H as (c & -> & -> & H1).
      char_cases H1; (split; [done|]);
        match goal with |- context [String ?a ""] => exists (ord a - 48) end;
        (split; [by vm_compute|right; split; [by vm_compute|done]]).
  - intros [-> (n & Hn & Ht)].
    range_cases n 1 12; destruct Ht as [->|[H9 ->]]; try (by vm_compute in H9);
      match goal with |- lang re_m ?t _ =>
        apply (run_sound re_m t (mkmatching t [("m", t)] ""))
      end; in_run.
Qed.

Lemma zfill4_digits (a b c d : Z) :
  0 <= a <= 9 -> 0 <= b <= 9 -> 0 <= c <= 9 -> 0 <= d <= 9 ->
  zfill4 (1000 * a + 100 * b + 10 * c + d)
  = String (digit_chr a) (String (digit_chr b) (String (digit_chr c) (String (digit_chr d) ""))).
Proof.
  intros Ha Hb Hc Hd. unfold zfill4.
  set (n := 1000 * a + 100 * b + 10 * c + d).
  assert (n / 1000 = a /\ n / 100 mod 10 = b /\ n / 10 mod 10 = c /\ n mod 10 = d)
    as (-> & -> & -> & ->); [|done].
  unfold n. Z.div_mod_to_equations. lia.
Qed.

Lemma zfill2_digits (a b : Z) :
  0 <= a <= 9 -> 0 <= b <= 9 ->
  zfill2 (10 * a + b) = String (digit_chr a) (String (digit_chr b) "").
Proof.
  intros Ha Hb. unfold zfill2.
  assert ((10 * a + b) / 10 = a /\ (10 * a + b) mod 10 = b) as (-> & ->); [|done].
  Z.div_mod_to_equations. lia.
Qed.

Lemma chr_isdecimal_digit_chr (k : Z) : 0 <= k <= 9 -> chr_isdecimal (digit_chr k) = true.
Proof.
  intros Hk. unfold chr_isdecimal. rewrite ord_digit_chr by done. simpl.
  apply andb_true_iff. rewrite !Z.leb_le. lia.
Qed.

Lemma year_digits (n : Z) :
  0 <= n <= 9999 ->
  0 <= n / 1000 <= 9 /\ 0 <= n / 100 mod 10 <= 9 /\ 0 <= n / 10 mod 10 <= 9
  /\ 0 <= n mod 10 <= 9
  /\ n = 1000 * (n / 1000) + 100 * (n / 100 mod 10) + 10 * (n / 10 mod 10) + n mod 10.
Proof. intros Hn. Z.div_mod_to_equations. lia. Qed.

Lemma lang_re_Y (t : string) (gs : list (string * string)) :
  lang re_Y t gs <-> gs = [("Y", t)] /\ exists n, Spec.year_text t n.
Proof.
  split.
  - intros (g & H & ->). simpl in H.
    destruct H as (t1 & g1 & t2' & g2' & (c1 & -> & -> & H1) & H & -> & ->).
    destruct H as (t2 & g2 & t3' & g3' & (c2 & -> & -> & H2) & H & -> & ->).
    destruct H as (t3 & g3 & t4 & g4 & (c3 & -> & -> & H3) & (c4 & -> & -> & H4) & -> & ->).
    cbv [String.append]. split; [done|].
    apply digit_chr_ord in H1 as [E1 B1], H2 as [E2 B2], H3 as [E3 B3], H4 as [E4 B4].
    exists (1000 * (ord c1 - 48) + 100 * (ord c2 - 48) + 10 * (ord c3 - 48) + (ord c4 - 48)).
    split; [lia|]. rewrite zfill4_digits by done. congruence.
  - intros [-> (n & Hn & ->)].
    destruct (year_digits n Hn) as (B1 & B2 & B3 & B4 & _).
    exists []. split; [|done]. unfold zfill4.
    repeat match goal with
      | |- lang (Seq Digit _) (String ?c ?s) _ =>
          exists (String c ""), [], s, [];
          split_and!; [exists c; split_and!; [done..|by apply chr_isdecimal_digit_chr]| |done..]
      end.
    eexists; split_and!; [done..|by apply chr_isdecimal_digit_chr].
Qed.

(** Reading the numbers *)

Lemma int_day_text (t : string) (n : Z) : Spec.day_text t n -> int t = Ok n.
Proof.
  intros (Hn & Ht).
  range_cases n 1 31; destruct Ht as [->|[H9 [->| ->]]]; try (by vm_compute in H9);
    reflexivity.
Qed.

Lemma int_month_text (t : string) (n : Z) : Spec.month_text t n -> int t = Ok n.
Proof.
  intros (Hn & Ht).
  range_cases n 1 12; destruct Ht as [->|[H9 ->]]; try (by vm_compute in H9); reflexivity.
Qed.

Lemma int_year_text (t : string) (n : Z) : Spec.year_text t n -> int t = Ok n.
Proof.
  intros (Hn & ->). destruct (year_digits n Hn) as (B1 & B2 & B3 & B4 & E).
  unfold zfill4, int.
  assert (forall k s, 0 <= k <= 9 ->
            lstrip (String (digit_chr k) s) = String (digit_chr k) s) as Hstrip.
  { intros k s Hk. simpl. destruct (Ascii.eqb_spec (digit_chr k) " ") as [E'|]; [|done].
    apply (f_equal ord) in E'. rewrite ord_digit_chr in E' by done.
    change (ord " ") with 32 in E'. lia. }
  rewrite Hstrip by done. simpl.
  rewrite !chr_isdecimal_digit_chr by done. simpl.
  rewrite !ord_digit_chr by done. f_equal. lia.
Qed.

(** The whole pattern *)

Lemma lang_format_regex (t : string) (gs : list (string * string)) :
  lang format_regex t gs <->
  exists dt mt yt,
    t = (dt ++ "." ++ mt ++ "." ++ yt)%string
    /\ gs = [("d", dt); ("m", mt); ("Y", yt)]
    /\ (exists n, Spec.day_text dt n) /\ (exists n, Spec.month_text mt n)
    /\ (exists n, Spec.year_text yt n).
Proof.
  split.
  - intros (dt & gd & t1 & g1 & [-> Hd]%lang_re_d & H & -> & ->).
    destruct H as (p1 & gp1 & t2 & g2 & [-> ->] & H & -> & ->).
    destruct H as (mt & gm & t3 & g3 & [-> Hm]%lang_re_m & H & -> & ->).
    destruct H as (p2 & gp2 & yt & gy & [-> ->] & [-> Hy]%lang_re_Y & -> & ->).
    by exists dt, mt, yt.
  - intros (dt & mt & yt & -> & -> & Hd & Hm & Hy).
    exists dt, [("d", dt)], ("." ++ mt ++ "." ++ yt)%string, [("m", mt); ("Y", yt)].
    split_and!; [by apply lang_re_d| |done..].
    exists ".", [], (mt ++ "." ++ yt)%string, [("m", mt); ("Y", yt)].
    split_and!; [done| |done..].
    exists mt, [("m", mt)], ("." ++ yt)%string, [("Y", yt)].
    split_and!; [by apply lang_re_m| |done..].
    exists ".", [], yt, [("Y", yt)].
    split_and!; [done|by apply lang_re_Y|done..].
Qed.

(** No text of a day or a month holds a dot, so a string is cut into day,
    month and year in one way only. *)

Lemma append_nil_l (a : string) : ("" ++ a = a)%string.
Proof. reflexivity. Qed.

Lemma split_at_dot (a b a' b' : string) :
  Spec.no_dot a -> Spec.no_dot a' ->
  (a ++ "." ++ b = a' ++ "." ++ b')%string -> a = a' /\ b = b'.
Proof.
  unfold Spec.no_dot. revert a'. induction a as [|x a IH]; intros [|x' a']; simpl;
    rewrite ?append_cons, ?append_nil_l, ?andb_true_iff, ?negb_true_iff.
  - by intros _ _ [= ->].
  - intros _ [Hx _] [= <- _]. done.
  - intros [Hx _] _ [= -> _]. done.
  - intros [_ Ha] [_ Ha'] [= -> E]. destruct (IH a' Ha Ha' E) as [-> ->]. done.
Qed.

Lemma day_text_no_dot (t : string) (n : Z) : Spec.day_text t n -> Spec.no_dot t.
Proof.
  intros (Hn & Ht).
  range_cases n 1 31; destruct Ht as [->|[H9 [->| ->]]]; try (by vm_compute in H9);
    reflexivity.
Qed.

Lemma month_text_no_dot (t : string) (n : Z) : Spec.month_text t n -> Spec.no_dot t.
Proof.
  intros (Hn & Ht).
  range_cases n 1 12; destruct Ht as [->|[H9 ->]]; try (by vm_compute in H9); reflexivity.
Qed.

Lemma year_text_prefix (t t' r r' : string) (n n' : Z) :
  Spec.year_text t n -> Spec.year_text t' n' -> (t ++ r = t' ++ r')%string -> t = t' /\ r = r'.
Proof.
  intros [_ ->] [_ ->]. unfold zfill4. rewrite !append_cons, !append_nil_l.
  intros [= -> -> -> -> ->]. done.
Qed.

Lemma format_regex_unique (t t' r r' : string) (gs gs' : list (string * string)) :
  lang format_regex t gs -> lang format_regex t' gs' ->
  (t ++ r = t' ++ r')%string -> t = t' /\ gs = gs' /\ r = r'.
Proof.
  intros (dt & mt & yt & -> & -> & [nd Hd] & [nm Hm] & [ny Hy])%lang_format_regex
         (dt' & mt' & yt' & -> & -> & [nd' Hd'] & [nm' Hm'] & [ny' Hy'])%lang_format_regex.
  rewrite !append_assoc. intros E.
  apply split_at_dot in E as [-> E]; [|by eapply day_text_no_dot..].
  apply split_at_dot in E as [-> E]; [|by eapply month_text_no_dot..].
  destruct (year_text_prefix _ _ _ _ _ _ Hy Hy' E) as [-> ->]. done.
Qed.

(** [strptime] takes exactly the texts of the real dates. *)
Lemma strptime_Ok (s : string) (d : date) :
  strptime s = Ok d <-> valid d /\ Spec.strptime_text s d.
Proof.
  unfold strptime, re_match. split.
  - destruct (head (run format_regex s)) as [found|] eqn:Hhead; [|done].
    apply head_Some_elem_of, run_sound in Hhead as [Hlang Hs].
    destruct (String.eqb_spec (rest found) "") as [Hrest|]; [|done]. simpl.
    rewrite Hrest, append_nil_r in Hs.
    apply lang_format_regex in Hlang
      as (dt & mt & yt & Ht & -> & [nd Hd] & [nm Hm] & [ny Hy]).
    simpl. rewrite (int_year_text _ _ Hy), (int_month_text _ _ Hm), (int_day_text _ _ Hd).
    simpl. intros [-> Hv]%date_new_Ok. split; [done|].
    exists dt, mt, yt. by rewrite Hs, Ht.
  - intros [Hv (dt & mt & yt & -> & Hd & Hm & Hy)].
    set (s := (dt ++ "." ++ mt ++ "." ++ yt)%string).
    set (gs := [("d", dt); ("m", mt); ("Y", yt)]).
    assert (lang format_regex s gs) as Hlang.
    { apply lang_format_regex. exists dt, mt, yt. eauto 10. }
    pose proof (run_complete format_regex s gs "" Hlang) as Hin.
    rewrite append_nil_r in Hin.
    destruct (head (run format_regex s)) as [found|] eqn:Hhead;
      [|apply head_None in Hhead; rewrite Hhead in Hin; by apply elem_of_nil in Hin].
    apply head_Some_elem_of, run_sound in Hhead as [Hlang' Hs].
    destruct (format_regex_unique _ _ (rest found) "" _ _ Hlang' Hlang) as (_ & -> & ->).
    { by rewrite append_nil_r. }
    simpl. rewrite (int_year_text _ _ Hy), (int_month_text _ _ Hm), (int_day_text _ _ Hd).
    simpl. apply date_new_Ok. by destruct d.
Qed.

Lemma strptime_Raise (s : string) (e : exn) :
  strptime s = Raise e -> exists msg, e = ValueError msg.
Proof.
  unfold strptime, int, date_new.
  repeat (case_match; simpl; try by (intros [= <-]; eexists)); try done.
Qed.




(** The year as [strftime] prints it has four digits from 1000 on, and fewer
    below. *)
Lemma str_int_zfill4 (n : Z) : 1000 <= n -> str_int n = zfill4 n.
Proof.
  intros Hn. unfold str_int.
  destruct (Z.ltb_spec n 10); [lia|]. destruct (Z.ltb_spec n 100); [lia|].
  destruct (Z.ltb_spec n 1000); [lia|]. done.
Qed.

Lemma str_int_short (n m : Z) : n < 1000 -> str_int n <> zfill4 m.
Proof.
  intros Hn. unfold str_int, zfill4, zfill2.
  destruct (Z.ltb_spec n 10); [done|]. destruct (Z.ltb_spec n 100); [done|].
  destruct (Z.ltb_spec n 1000); [done|lia].
Qed.

Lemma strftime_dmY_text (d : date) : strftime d = Spec.dmY_text d <-> 1000 <= year d.
Proof.
  unfold strftime, Spec.dmY_text. split.
  - intros E. destruct (Z.le_gt_cases 1000 (year d)) as [|Hlt]; [done|].
    destruct (str_int_short (year d) (year d)); [lia|].
    unfold zfill2 in E. rewrite !append_cons, !append_nil_l in E. congruence.
  - intros Hy. by rewrite str_int_zfill4.
Qed.



Lemma dmY_pattern_text (s : string) (d : date) :
  Spec.dmY_pattern s = Some d -> s = Spec.dmY_text d.
Proof.
  unfold Spec.dmY_pattern.
  destruct s as [|d1 [|d2 [|p [|m1 [|m2 [|q [|y1 [|y2 [|y3 [|y4 [|]]]]]]]]]]]; try done.
  case_match eqn:Hc; [|done]. intros [= <-].
  simpl in Hc. rewrite !andb_true_iff in Hc.
  destruct Hc as [[(D1 & D2 & M1 & M2 & Y1 & Y2 & Y3 & Y4 & _) ->%Ascii.eqb_eq] ->%Ascii.eqb_eq].
  apply digit_chr_ord in D1 as [D1 ?], D2 as [D2 ?], M1 as [M1 ?], M2 as [M2 ?],
    Y1 as [Y1 ?], Y2 as [Y2 ?], Y3 as [Y3 ?], Y4 as [Y4 ?].
  unfold Spec.dmY_text; simpl.
  replace (((0 * 10 + (ord d1 - 48)) * 10 + (ord d2 - 48)))
    with (10 * (ord d1 - 48) + (ord d2 - 48)) by lia.
  replace (((0 * 10 + (ord m1 - 48)) * 10 + (ord m2 - 48)))
    with (10 * (ord m1 - 48) + (ord m2 - 48)) by lia.
  replace ((((0 * 10 + (ord y1 - 48)) * 10 + (ord y2 - 48)) * 10 + (ord y3 - 48)) * 10
           + (ord y4 - 48))
    with (1000 * (ord y1 - 48) + 100 * (ord y2 - 48) + 10 * (ord y3 - 48) + (ord y4 - 48))
    by lia.
  rewrite !zfill2_digits, zfill4_digits by done.
  rewrite !append_cons, !append_nil_l. congruence.
Qed.

Lemma Birthday_init_Ok (s : string) (b : Birthday) :
  Birthday_init s = Ok b <-> strptime s = Ok (Birthday_value b).
Proof.
  unfold Birthday_init. destruct (strptime s) as [d|e] eqn:Hs.
  - destruct b as [d']. simpl. split; congruence.
  - destruct e; split; done.
Qed.

(** What [add_birthday] stores is a date a [date] object can hold. *)
Lemma add_birthday_valid (s : string) (self self' : Contact.record) :
  Contact.add_birthday s self = (Ok tt, self') ->
  exists b, Contact.birthday self' = Some b /\ valid (Birthday_value b).
Proof.
  unfold Contact.add_birthday, mbind, method_bind, lift, update.
  destruct (Birthday_init s) as [b|e] eqn:Hb; [|done].
  intros [= <-]. exists b. split; [done|].
  apply Birthday_init_Ok, strptime_Ok in Hb. tauto.
Qed.

Lemma Birthday_init_Raise (s : string) (e : exn) :
  Birthday_init s = Raise e -> e = ValueError "Birthday must be in the format DD.MM.YYYY.".
Proof.
  unfold Birthday_init. destruct (strptime s) as [d|e'] eqn:Hs; [done|].
  apply strptime_Raise in Hs as [msg ->]. by intros [= <-].
Qed.



(** It fails on its own ground too: "01.01.0999" is a real date written
    DD.MM.YYYY, [Birthday] takes it, and the stored date is printed as
    "01.01.999", a text [Birthday] refuses. *)
Example Birthday_init_year_0999 :
  Spec.dmY_pattern "01.01.0999" = Some (mkdate 999 1 1)
  /\ valid (mkdate 999 1 1)
  /\ Birthday_init "01.01.0999" = Ok (mkBirthday (mkdate 999 1 1))
  /\ strftime (mkdate 999 1 1) = "01.01.999"
  /\ Birthday_init "01.01.999"
     = Raise (ValueError "Birthday must be in the format DD.MM.YYYY.").
Proof.
  split_and!; try reflexivity. unfold valid; repeat split; vm_compute; discriminate.
Qed.

(** ** The birthday query *)

Section Upcoming.
Import Contact Book Spec.

Lemma replace_year_valid d y d' :
  replace_year d y = Ok d' ->
  valid d' /\ year d' = y /\ month d' = month d /\ day d' = day d.
Proof. intros [-> Hv]%date_new_Ok. done. Qed.

Lemma occurrence_code today b occ :
  valid today -> valid b ->
  Spec.occurrence today b occ <->
  (birthday_this_year ← replace_year b (year today);
   if date_lt birthday_this_year today
   then replace_year birthday_this_year (year today + 1)
   else Ok birthday_this_year) = Ok occ.
Proof.
  intros Ht Hb. unfold Spec.occurrence, before.
  destruct (replace_year b (year today)) as [ty|e] eqn:Hty; simpl.
  - pose proof (replace_year_valid _ _ _ Hty) as (Hv & _).
    pose proof (date_lt_ordinal ty today Hv Ht) as Hlt.
    destruct (date_lt ty today).
    + split.
      * intros (ty' & [= <-] & [[Hn _]|[_ Hocc]]); [|done]. destruct Hn. by apply Hlt.
      * intros Hocc. exists ty. split; [done|]. right. split; [by apply Hlt|done].
    + split.
      * intros (ty' & [= <-] & [[_ ->]|[Hn _]]); [done|]. apply Hlt in Hn. done.
      * intros [= <-]. exists ty. split; [done|]. left. split; [|done].
        intros Hn%Hlt. done.
  - split; [by intros (ty' & ? & _)|done].
Qed.

Lemma occurrence_valid today b occ : Spec.occurrence today b occ -> valid occ.
Proof.
  intros (ty & Hty & [[_ ->]|[_ Hocc]]).
  - by apply replace_year_valid in Hty as [? _].
  - by apply replace_year_valid in Hocc as [? _].
Qed.

Lemma occurrence_unique today b occ occ' :
  Spec.occurrence today b occ -> Spec.occurrence today b occ' -> occ = occ'.
Proof.
  intros (ty & Hty & H) (ty' & Hty' & H'). rewrite Hty in Hty'. injection Hty' as <-.
  destruct H as [[Hn ->]|[Hb Hocc]], H' as [[Hn' ->]|[Hb' Hocc']]; try done. congruence.
Qed.

Lemma weekday_range d : 0 <= weekday d <= 6.
Proof. unfold weekday. Z.div_mod_to_equations; lia. Qed.

Lemma weekend_shift_ok occ :
  valid occ -> 5 <= weekday occ ->
  exists reported,
    add_days occ (7 - weekday occ) = Ok reported
    /\ valid reported
    /\ toordinal reported = toordinal occ + (7 - weekday occ)
    /\ weekday reported = 0.
Proof.
  intros Hv Hw. pose proof (toordinal_bounds occ Hv) as Hb.
  pose proof (weekday_range occ) as Hr.
  unfold add_days.
  assert (1 <= toordinal occ + (7 - weekday occ) <= MAXORDINAL) as Hin.
  { unfold weekday, MAXORDINAL in *. Z.div_mod_to_equations; lia. }
  destruct (ord2ymd_toordinal _ Hin) as [Hv' Ho'].
  rewrite (proj2 (andb_true_iff _ _)) by (rewrite Z.ltb_lt, Z.leb_le; lia).
  eexists. split_and!; [done..|].
  unfold weekday in *. rewrite Ho'. Z.div_mod_to_equations; lia.
Qed.

Lemma upcoming_line_occurrence today days rec b occ :
  valid today -> valid (Birthday_value b) -> birthday rec = Some b ->
  Spec.occurrence today (Birthday_value b) occ ->
  upcoming_line today days rec =
    if bool_decide (in_window today days occ)
    then Ok (Some (line rec (reported occ))) else Ok None.
Proof.
  intros Ht Hb Hbd Hocc. pose proof (occurrence_valid _ _ _ Hocc) as Hv.
  apply occurrence_code in Hocc; [|done..].
  unfold upcoming_line. rewrite Hbd.
  destruct (replace_year (Birthday_value b) (year today)) as [ty|] eqn:Hty; [|done].
  simpl in *. rewrite Hocc. simpl.
  unfold in_window, days_until, days_between.
  case_bool_decide as Hw.
  - rewrite (proj2 (andb_true_iff _ _)) by (rewrite !Z.leb_le; lia).
    unfold line, reported. destruct (Z.leb_spec 5 (weekday occ)) as [H5|H5]; [|done].
    destruct (weekend_shift_ok occ Hv H5) as (rep & Hrep & _).
    rewrite Hrep. simpl. unfold add_days in Hrep. case_match; [|done]. by injection Hrep as <-.
  - rewrite (proj2 (andb_false_iff _ _)); [done|]. rewrite !Z.leb_gt. lia.
Qed.

Lemma upcoming_line_Ok today days rec b r :
  valid today -> valid (Birthday_value b) -> birthday rec = Some b ->
  upcoming_line today days rec = Ok r ->
  exists occ, Spec.occurrence today (Birthday_value b) occ.
Proof.
  intros Ht Hb Hbd Hr. unfold upcoming_line in Hr. rewrite Hbd in Hr.
  destruct (replace_year (Birthday_value b) (year today)) as [ty|] eqn:Hty; [|done].
  simpl in Hr.
  destruct (if date_lt ty today then replace_year ty (year today + 1) else Ok ty)
    as [occ|] eqn:Hocc; [|done].
  exists occ. apply occurrence_code; [done..|]. by rewrite Hty.
Qed.

Lemma upcoming_line_no_birthday today days rec :
  birthday rec = None -> upcoming_line today days rec = Ok None.
Proof. intros H. unfold upcoming_line. by rewrite H. Qed.

Lemma upcoming_loop_Ok today days recs acc lines :
  upcoming_loop today days recs acc = Ok lines <->
  exists rs, Forall2 (fun rec r => upcoming_line today days rec = Ok r) recs rs
             /\ lines = acc ++ omap id rs.
Proof.
  revert acc. induction recs as [|rec recs IH]; intros acc; simpl.
  - split.
    + intros [= <-]. exists []. split; [constructor|]. by rewrite app_nil_r.
    + intros (rs & ->%Forall2_nil_inv_l & ->). by rewrite app_nil_r.
  - destruct (upcoming_line today days rec) as [r|e] eqn:Hr; simpl.
    + rewrite IH. split.
      * intros (rs & Hrs & ->). exists (r :: rs). split; [by constructor|].
        destruct r; simpl; [by rewrite <- app_assoc|done].
      * intros (rs & (r' & rs' & Hr' & Hrs & ->)%Forall2_cons_inv_l & ->).
        assert (r' = r) as -> by congruence.
        exists rs'. split; [done|]. destruct r; simpl; [by rewrite <- app_assoc|done].
    + split; [done|]. intros (rs & (r' & rs' & Hr' & _)%Forall2_cons_inv_l & _).
      congruence.
Qed.

Lemma upcoming_loop_Raise today days recs acc rec :
  rec ∈ recs -> is_Raise (upcoming_line today days rec) ->
  is_Raise (upcoming_loop today days recs acc).
Proof.
  intros Hin [e He]. revert acc. induction recs as [|rec' recs IH]; intros acc.
  - by apply elem_of_nil in Hin.
  - simpl. destruct (upcoming_line today days rec') as [r|e'] eqn:Hr; simpl; [|by eexists].
    apply elem_of_cons in Hin as [->|Hin]; [congruence|]. by apply IH.
Qed.

Lemma upcoming_loop_total today days recs acc :
  Forall (fun rec => is_Ok (upcoming_line today days rec)) recs ->
  is_Ok (upcoming_loop today days recs acc).
Proof.
  intros H. revert acc. induction H as [|rec recs [r Hr] _ IH]; intros acc; simpl.
  - by eexists.
  - rewrite Hr. simpl. apply IH.
Qed.

(** C1.  On a day [today], [get_upcoming_birthdays(days)] returns as soon as
    every stored birthday has an occurrence, and leaves the book as it was.
    When it returns, its lines are those of the loop, record by record, in
    the order of the book, and a record with a birthday is selected exactly
    when its occurrence (the current year put into the stored date, the next
    year when that day is strictly before today) lies between 0 and [days]
    days from today, both ends included.  A birthday whose day of this year
    was yesterday has its occurrence in the next year, more than [days] days
    away for every [days] below 364, and is not selected. *)
Theorem upcoming_selects_window (today : date) (days : Z) (book : AddressBook) :
  valid today -> birthdays_valid book ->
  ((forall rec b, rec ∈ values book -> birthday rec = Some b ->
      exists occ, Spec.occurrence today (Birthday_value b) occ) ->
   exists lines, get_upcoming_birthdays today days book = (Ok lines, book))
  /\ (forall lines, (get_upcoming_birthdays today days book).1 = Ok lines ->
      (exists rs,
          Forall2 (fun rec r => upcoming_line today days rec = Ok r) (values book) rs
          /\ lines = omap id rs)
      /\ (forall rec b, rec ∈ values book -> birthday rec = Some b ->
          exists occ,
            Spec.occurrence today (Birthday_value b) occ
            /\ (selects today days rec <-> 0 <= days_until today occ <= days)
            /\ (selects today days rec -> line rec (reported occ) ∈ lines))
      /\ (forall rec b this_year,
          rec ∈ values book -> birthday rec = Some b ->
          replace_year (Birthday_value b) (year today) = Ok this_year ->
          toordinal this_year = toordinal today - 1 -> days < 364 ->
          exists occ,
            Spec.occurrence today (Birthday_value b) occ
            /\ year occ = year today + 1
            /\ days < days_until today occ
            /\ ~ selects today days rec)).
Proof.
  intros Ht Hbook. unfold birthdays_valid in Hbook. rewrite Forall_forall in Hbook.
  unfold get_upcoming_birthdays; simpl. split.
  - intros Hocc.
    destruct (upcoming_loop_total today days (values book) []) as [lines Hl];
      [|by exists lines; rewrite Hl].
    apply Forall_forall. intros rec Hin.
    destruct (birthday rec) as [b|] eqn:Hb.
    + destruct (Hocc rec b Hin Hb) as [occ Ho].
      rewrite (upcoming_line_occurrence today days rec b occ); [|done|by eapply Hbook|done..].
      case_bool_decide; by eexists.
    + rewrite upcoming_line_no_birthday by done. by eexists.
  - intros lines (rs & Hrs & ->)%upcoming_loop_Ok. simpl.
    assert (forall rec b, rec ∈ values book -> birthday rec = Some b ->
              exists occ, Spec.occurrence today (Birthday_value b) occ
                /\ upcoming_line today days rec =
                     (if bool_decide (in_window today days occ)
                      then Ok (Some (line rec (reported occ))) else Ok None)) as Hrec.
    { intros rec b Hin Hb.
      apply list_elem_of_lookup in Hin as [i Hi].
      destruct (Forall2_lookup_l _ _ _ _ _ Hrs Hi) as (r & _ & Hr).
      assert (valid (Birthday_value b)) as Hvb
        by (eapply Hbook; [by eapply list_elem_of_lookup_2|done]).
      destruct (upcoming_line_Ok today days rec b r) as [occ Ho]; [done..|].
      exists occ. split; [done|].
      by apply (upcoming_line_occurrence today days rec b occ). }
    split_and!.
    + by exists rs.
    + intros rec b Hin Hb. destruct (Hrec rec b Hin Hb) as (occ & Ho & Hline).
      exists occ. unfold selects. rewrite Hline. unfold in_window in *.
      split_and!; [done| |].
      * case_bool_decide; split; try done; [by eexists|by intros [? ?]].
      * intros [l Hl]. case_bool_decide; [|done]. injection Hl as <-.
        apply list_elem_of_lookup in Hin as [i Hi].
        destruct (Forall2_lookup_l _ _ _ _ _ Hrs Hi) as (r & Hri & Hr).
        rewrite Hline in Hr. injection Hr as <-.
        apply list_elem_of_omap. eexists. split; [by eapply list_elem_of_lookup_2|done].
    + intros rec b ty Hin Hb Hty Hyesterday Hdays.
      destruct (Hrec rec b Hin Hb) as (occ & Ho & Hline).
      exists occ. split; [done|].
      destruct Ho as (ty' & Hty' & Hcases). rewrite Hty in Hty'. injection Hty' as <-.
      unfold before in Hcases. destruct Hcases as [[Hn _]|[_ Hnext]]; [lia|].
      pose proof (replace_year_valid _ _ _ Hty) as (Hv & Hy & _).
      pose proof (replace_year_next _ _ Hv _ Hnext Hy) as Hdiff.
      pose proof (replace_year_valid _ _ _ Hnext) as (_ & Hy' & _).
      unfold selects. rewrite Hline. unfold days_until, in_window, days_until.
      split_and!; [done|lia|].
      rewrite bool_decide_eq_false_2 by lia. by intros [? ?].
Qed.

(** C2.  For a record whose occurrence lies in the window, the line holds
    the occurrence itself when it falls on Monday to Friday, and otherwise
    the occurrence moved on by seven minus its weekday: two days from a
    Saturday, one day from a Sunday, in both cases to a Monday.  The moved
    date always exists, and it is reported whatever its distance from
    today. *)
Theorem weekend_shift (today : date) (days : Z) (rec : record) (b : Birthday)
    (occ : date) :
  valid today -> valid (Birthday_value b) -> birthday rec = Some b ->
  Spec.occurrence today (Birthday_value b) occ ->
  0 <= days_until today occ <= days ->
  exists rep,
    upcoming_line today days rec = Ok (Some (line rec rep))
    /\ valid rep
    /\ (weekday occ = 5 -> toordinal rep = toordinal occ + 2 /\ weekday rep = 0)
    /\ (weekday occ = 6 -> toordinal rep = toordinal occ + 1 /\ weekday rep = 0)
    /\ (5 <= weekday occ -> add_days occ (7 - weekday occ) = Ok rep)
    /\ (weekday occ < 5 -> rep = occ).
Proof.
  intros Ht Hb Hbd Ho Hw. pose proof (occurrence_valid _ _ _ Ho) as Hv.
  exists (reported occ).
  rewrite (upcoming_line_occurrence today days rec b occ) by done.
  rewrite bool_decide_eq_true_2 by done. split; [done|].
  unfold reported. destruct (Z.leb_spec 5 (weekday occ)) as [H5|H5].
  - destruct (weekend_shift_ok occ Hv H5) as (rep & Hrep & Hvr & Hord & Hwd).
    assert (rep = ord2ymd (toordinal occ + (7 - weekday occ))) as <-.
    { unfold add_days in Hrep. case_match; [|done]. by injection Hrep as <-. }
    split_and!; [done| | |done|lia].
    + intros E. rewrite Hord, E. done.
    + intros E. rewrite Hord, E. done.
  - split_and!; [done|lia..|done].
Qed.

(** C10.  In a year that is not a leap year, a book holding a record whose
    birthday is a 29th of February makes [get_upcoming_birthdays] raise: the
    substitution of the current year into that date raises [ValueError], the
    loop stops there, and no list is returned. *)
Theorem leap_day_birthday_raises (today : date) (days : Z) (book : AddressBook)
    (rec : record) (b : Birthday) :
  is_leap (year today) = false ->
  rec ∈ values book -> birthday rec = Some b ->
  month (Birthday_value b) = 2 -> day (Birthday_value b) = 29 ->
  (exists msg, replace_year (Birthday_value b) (year today) = Raise (ValueError msg))
  /\ is_Raise (upcoming_line today days rec)
  /\ exists e, get_upcoming_birthdays today days book = (Raise e, book).
Proof.
  intros Hleap Hin Hb Hm Hd.
  assert (exists msg,
            replace_year (Birthday_value b) (year today) = Raise (ValueError msg))
    as [msg Hr].
  { unfold replace_year, date_new, days_in_month. rewrite Hm, Hd, Hleap. simpl.
    case_match; by eexists. }
  assert (is_Raise (upcoming_line today days rec)) as Hline.
  { unfold upcoming_line. rewrite Hb, Hr. by eexists. }
  split_and!; [by exists msg|done|].
  unfold get_upcoming_birthdays.
  destruct (upcoming_loop_Raise today days (values book) [] rec Hin Hline) as [e He].
  exists e. by rewrite He.
Qed.

End Upcoming.

(** The scenario of the specification, run. *)
Example scenario_lines :
  Book.get_upcoming_birthdays Spec.sunday 7 Spec.scenario
  = (Ok ["Name: Anna, birthday: 12.03.2024"; "Name: Ben, birthday: 18.03.2024"],
     Spec.scenario).
Proof. reflexivity. Qed.

Example scenario_cid_rolls :
  Spec.occurrence Spec.sunday (mkdate 1990 3 9) (mkdate 2025 3 9)
  /\ Spec.days_until Spec.sunday (mkdate 2025 3 9) = 364.
Proof.
  split; [|reflexivity]. exists (mkdate 2024 3 9). split; [reflexivity|].
  right. split; [|reflexivity]. unfold Spec.before. by vm_compute.
Qed.

(** With [days = 6] Ben is still reported, on a day outside the window. *)
Example scenario_shift_leaves_window :
  Book.upcoming_line Spec.sunday 6 Spec.ben = Ok (Some "Name: Ben, birthday: 18.03.2024")
  /\ Spec.days_until Spec.sunday (mkdate 2024 3 18) = 8.
Proof. split; reflexivity. Qed.

Ltac valid_date := unfold valid; repeat split; vm_compute; discriminate.

Lemma sunday_valid : valid Spec.sunday.
Proof. valid_date. Defined.

Lemma scenario_valid : Spec.birthdays_valid Spec.scenario.
Proof.
  unfold Spec.birthdays_valid, Spec.scenario; simpl.
  repeat (apply Forall_cons; split; [intros b [= <-]; valid_date|]).
  apply Forall_nil_2.
Defined.

Lemma upcoming_selects_window_scenario :
  valid Spec.sunday /\ Spec.birthdays_valid Spec.scenario
  /\ exists rs,
      Forall2 (fun rec r => Book.upcoming_line Spec.sunday 7 rec = Ok r)
        (Book.values Spec.scenario) rs
      /\ ["Name: Anna, birthday: 12.03.2024"; "Name: Ben, birthday: 18.03.2024"]
         = omap id rs.
Proof.
  split; [exact sunday_valid|]. split; [exact scenario_valid|].
  exact (proj1 (proj2 (upcoming_selects_window Spec.sunday 7 Spec.scenario
                         sunday_valid scenario_valid) _ eq_refl)).
Defined.

Lemma weekend_shift_ben :
  Spec.occurrence Spec.sunday (mkdate 2024 3 16) (mkdate 2024 3 16)
  /\ 0 <= Spec.days_until Spec.sunday (mkdate 2024 3 16) <= 6
  /\ exists rep,
      Book.upcoming_line Spec.sunday 6 Spec.ben = Ok (Some (Spec.line Spec.ben rep))
      /\ (weekday (mkdate 2024 3 16) = 5 -> toordinal rep = toordinal (mkdate 2024 3 16) + 2
                                            /\ weekday rep = 0).
Proof.
  assert (Spec.occurrence Spec.sunday (mkdate 2024 3 16) (mkdate 2024 3 16)) as Hocc.
  { exists (mkdate 2024 3 16). split; [reflexivity|]. left. split; [|reflexivity].
    unfold Spec.before. vm_compute. discriminate. }
  assert (0 <= Spec.days_until Spec.sunday (mkdate 2024 3 16) <= 6) as Hwin.
  { vm_compute. split; discriminate. }
  assert (valid (mkdate 2024 3 16)) as Hb by valid_date.
  split; [exact Hocc|]. split; [exact Hwin|].
  destruct (weekend_shift Spec.sunday 6 Spec.ben (mkBirthday (mkdate 2024 3 16))
              (mkdate 2024 3 16) sunday_valid Hb eq_refl Hocc Hwin)
    as (rep & Hline & _ & Hsat & _).
  exists rep. split; [exact Hline|exact Hsat].
Defined.

Lemma leap_day_birthday_raises_2023 :
  is_leap (year Spec.a_day_of_2023) = false
  /\ exists e, Book.get_upcoming_birthdays Spec.a_day_of_2023 7 Spec.leap_book
               = (Raise e, Spec.leap_book).
Proof.
  split; [reflexivity|].
  refine (proj2 (proj2 (leap_day_birthday_raises Spec.a_day_of_2023 7 Spec.leap_book
                         Spec.eve (mkBirthday (mkdate 2024 2 29))
                         eq_refl _ eq_refl eq_refl eq_refl))).
  unfold Spec.leap_book; simpl. right. left.
Defined.

(** ** Worked values *)

Example weekday_2024_03_10 : weekday (mkdate 2024 3 10) = 6.
Proof. reflexivity. Qed.

Example ord2ymd_max : ord2ymd MAXORDINAL = mkdate 9999 12 31.
Proof. reflexivity. Qed.

Example strptime_plain : strptime "12.03.2024" = Ok (mkdate 2024 3 12).
Proof. reflexivity. Qed.

Example strptime_short : strptime "1.3.2024" = Ok (mkdate 2024 3 1).
Proof. reflexivity. Qed.

Example strptime_blank : strptime " 1.03.2024" = Ok (mkdate 2024 3 1).
Proof. reflexivity. Qed.

Example strptime_feb30 :
  strptime "30.02.2024" = Raise (ValueError "day is out of range for month").
Proof. reflexivity. Qed.

Example strptime_trailing :
  strptime "12.03.20245" = Raise (ValueError "unconverted data remains").
Proof. reflexivity. Qed.

Example strptime_day32 :
  strptime "32.03.2024" = Raise (ValueError "time data does not match format").
Proof. reflexivity. Qed.

Example strftime_plain : strftime (mkdate 2024 3 12) = "12.03.2024".
Proof. reflexivity. Qed.

(** * Further properties *)

(** ** Records, once more *)

Section MoreRecords.
Import Contact.

Lemma set_phones_same (self : record) : set_phones (phones self) self = self.
Proof. by destruct self. Qed.

Lemma Phone_eta (p : Phone) : mkPhone (Phone_value p) = p.
Proof. by destruct p. Qed.

Lemma find_phone_app_new (phone : string) (self : record) :
  phone ∉ phone_values self ->
  find_phone phone (set_phones (phones self ++ [mkPhone phone]) self)
  = Some (length (phones self), mkPhone phone).
Proof.
  intros Hout. apply find_phone_Some. simpl. split_and!.
  - by rewrite lookup_app_r, Nat.sub_diag.
  - done.
  - intros j Hj Hlook. apply Hout.
    unfold phone_values in *. simpl in Hlook.
    rewrite fmap_app, lookup_app_l in Hlook by by rewrite length_fmap.
    by eapply list_elem_of_lookup_2.
Qed.


Lemma NoDup_delete_lookup {A} (l : list A) (i : nat) (x : A) :
  NoDup l -> l !! i = Some x -> x ∉ delete i l.
Proof.
  intros Hnd Hi. rewrite <- (take_drop_middle l i x Hi) in Hnd.
  apply NoDup_app in Hnd as (_ & Hdisj & [Hx _]%NoDup_cons).
  rewrite delete_take_drop. intros [Hin|Hin]%elem_of_app; [|done].
  apply (Hdisj x Hin). left.
Qed.

Lemma NoDup_insert_new {A} (l : list A) (i : nat) (x : A) :
  NoDup l -> x ∉ l -> NoDup (<[i:=x]> l).
Proof.
  intros Hnd Hx. destruct (l !! i) as [y|] eqn:Hi.
  - rewrite insert_take_drop by by eapply lookup_lt_Some.
    rewrite <- (take_drop_middle l i y Hi) in Hnd, Hx.
    apply NoDup_app in Hnd as (Ht & Hdisj & [Hy Hd]%NoDup_cons).
    apply NoDup_app. split_and!; [done| |].
    + intros z Hz [->|Hz']%elem_of_cons.
      * apply Hx, elem_of_app. by left.
      * apply (Hdisj z Hz). by right.
    + apply NoDup_cons. split; [|done]. intros Hin. apply Hx, elem_of_app. right. by right.
  - rewrite list_insert_ge; [done|]. by apply lookup_ge_None.
Qed.

(** X1.  [remove_phone(phone)] raises the not-found error and leaves the record
    as it was when no phone holds the value; otherwise it takes out the first
    phone holding it and nothing else, so that in a record of distinct phones
    the value is gone. *)
Theorem remove_phone_first (self : record) (phone : string) :
  (phone ∉ phone_values self ->
     exists e, remove_phone phone self = (Raise e, self) /\ NotFoundError e)
  /\ (phone ∈ phone_values self ->
     exists (i : nat) self',
       remove_phone phone self = (Ok tt, self')
       /\ phone_values self !! i = Some phone
       /\ (forall j, (j < i)%nat -> phone_values self !! j <> Some phone)
       /\ phone_values self' = delete i (phone_values self)
       /\ name self' = name self /\ birthday self' = birthday self
       /\ (unique_phones self -> phone ∉ phone_values self')).
Proof.
  rewrite remove_phone_unfold. split.
  - intros Hout%find_phone_None. rewrite Hout. eexists; split; [done|]. by left.
  - intros (i & p & Hf)%find_phone_present. rewrite Hf.
    apply find_phone_Some in Hf as (Hi & Hp & Hfirst).
    assert (phone_values self !! i = Some phone) as Hvi.
    { unfold phone_values. by rewrite list_lookup_fmap, Hi; simpl; rewrite Hp. }
    exists i. eexists. split; [done|]. split_and!; try done.
    + unfold phone_values. simpl. by rewrite list_fmap_delete.
    + unfold unique_phones. intros Hu. unfold phone_values at 1. simpl.
      rewrite list_fmap_delete. by apply NoDup_delete_lookup.
Qed.

(** X2.  [add_phone(phone)] with a value the record does not hold yet: a valid
    value is put at the end of the phones, the others keeping their places;
    an invalid one raises the validation error and leaves the record as it
    was. *)
Theorem add_phone_new_value (self : record) (phone : string) :
  phone ∉ phone_values self ->
  (is_Ok (Phone_init phone) ->
     exists self',
       add_phone phone self = (Ok tt, self')
       /\ phone_values self' = phone_values self ++ [phone]
       /\ name self' = name self /\ birthday self' = birthday self)
  /\ (~ is_Ok (Phone_init phone) ->
     exists e, add_phone phone self = (Raise e, self) /\ ValidationError e).
Proof.
  intros Hout. rewrite add_phone_absent by done. split.
  - intros [p Hp]. rewrite Hp. apply Phone_init_Ok in Hp as (-> & _).
    eexists. split; [done|]. unfold phone_values. simpl. by rewrite fmap_app.
  - intros Hbad. destruct (Phone_init phone) as [p|e] eqn:Hp; [destruct Hbad; by exists p|].
    exists e. split; [done|]. apply Phone_init_Raise in Hp as ->. right. by left.
Qed.

(** X3.  On a record of distinct phones, a successful [edit_phone(old, new)]
    leaves the phones distinct exactly when [new] is not yet a phone of the
    record or is [old] itself. *)
Theorem edit_phone_unique_iff (self : record) (old new : string) :
  unique_phones self -> old ∈ phone_values self -> is_Ok (Phone_init new) ->
  (unique_phones (edit_phone old new self).2 <-> new ∉ phone_values self \/ new = old).
Proof.
  unfold unique_phones. intros Hu (i & p & Hf)%find_phone_present [q Hq].
  rewrite edit_phone_unfold, Hf, Hq. apply Phone_init_Ok in Hq as (-> & _). simpl.
  apply find_phone_Some in Hf as (Hi & Hp & _).
  assert (phone_values self !! i = Some old) as Hvi.
  { unfold phone_values. by rewrite list_lookup_fmap, Hi; simpl; rewrite Hp. }
  unfold phone_values at 1. simpl. rewrite list_fmap_insert. fold (phone_values self).
  split.
  - intros Hnd. destruct (decide (new = old)) as [|Hne]; [by right|left].
    intros (j & Hj)%list_elem_of_lookup.
    assert (j <> i) as Hji by (intros ->; congruence).
    assert (i < length (phone_values self))%nat as Hlt by by eapply lookup_lt_Some.
    apply Hji. eapply (NoDup_lookup _ j i new Hnd).
    + by rewrite list_lookup_insert_ne.
    + by rewrite list_lookup_insert_eq.
  - intros [Hnew| ->].
    + by apply NoDup_insert_new.
    + by rewrite list_insert_id.
Qed.

(** X4.  [remove_phone(p)] after [add_phone(p)], for a valid [p] the record
    did not hold, gives the record back as it was. *)
Theorem add_then_remove_phone (self : record) (phone : string) :
  phone ∉ phone_values self -> is_Ok (Phone_init phone) ->
  remove_phone phone (add_phone phone self).2 = (Ok tt, self).
Proof.
  intros Hout [p Hp]. rewrite add_phone_absent, Hp by done.
  apply Phone_init_Ok in Hp as (-> & _). simpl.
  rewrite remove_phone_unfold, (find_phone_app_new phone self Hout). simpl.
  rewrite delete_take_drop, take_app_length, drop_ge, app_nil_r
    by (rewrite length_app; simpl; lia).
  by destruct self.
Qed.

(** X5.  [edit_phone(new, old)] after [edit_phone(old, new)], for valid values
    with [old] in the record and [new] not, gives the record back as it
    was. *)
Theorem edit_phone_there_and_back (self : record) (old new : string) :
  old ∈ phone_values self -> new ∉ phone_values self ->
  is_Ok (Phone_init old) -> is_Ok (Phone_init new) ->
  edit_phone new old (edit_phone old new self).2 = (Ok tt, self).
Proof.
  intros (i & p & Hf)%find_phone_present Hnew [qo Hqo] [qn Hqn].
  rewrite (edit_phone_unfold old new), Hf, Hqn.
  apply Phone_init_Ok in Hqn as (-> & _). simpl.
  apply find_phone_Some in Hf as (Hi & Hp & Hfirst).
  assert (i < length (phones self))%nat as Hlt by by eapply lookup_lt_Some.
  rewrite edit_phone_unfold.
  assert (find_phone new (set_phones (<[i:=mkPhone new]> (phones self)) self)
          = Some (i, mkPhone new)) as ->.
  { apply find_phone_Some. simpl. split_and!; [by rewrite list_lookup_insert_eq|done|].
    intros j Hj. unfold phone_values. simpl.
    rewrite list_lookup_fmap, list_lookup_insert_ne by lia.
    rewrite <- list_lookup_fmap. intros Hlook. apply Hnew.
    by eapply list_elem_of_lookup_2. }
  rewrite Hqo. apply Phone_init_Ok in Hqo as (-> & _). simpl.
  rewrite list_insert_insert_eq, list_insert_id; [by destruct self|].
  rewrite Hi. f_equal. destruct p; simpl in *; congruence.
Qed.


Lemma add_birthday_unfold (s : string) (self : record) :
  add_birthday s self =
    match Birthday_init s with
    | Ok b => (Ok tt, set_birthday (Some b) self)
    | Raise e => (Raise e, self)
    end.
Proof.
  unfold add_birthday, mbind, method_bind, lift, update.
  by destruct (Birthday_init s).
Qed.

(** X6.  [Record.add_birthday(s)]: a text that [Birthday] refuses raises the
    validation error and leaves the record, its earlier birthday included, as
    it was; a text of the real date [d] stores [d] and touches neither the
    name nor the phones; and a successful call overwrites whatever an earlier
    call did. *)
Theorem add_birthday_last_write (self : record) (s : string) :
  (~ is_Ok (Birthday_init s) ->
     exists e, add_birthday s self = (Raise e, self) /\ ValidationError e)
  /\ (forall d, valid d -> Spec.strptime_text s d ->
       exists self',
         add_birthday s self = (Ok tt, self')
         /\ birthday self' = Some (mkBirthday d)
         /\ phones self' = phones self /\ name self' = name self)
  /\ (is_Ok (Birthday_init s) ->
     forall s1, add_birthday s (add_birthday s1 self).2 = add_birthday s self).
Proof.
  rewrite !add_birthday_unfold. split_and!.
  - intros Hbad. destruct (Birthday_init s) as [b|e] eqn:Hb; [destruct Hbad; by exists b|].
    exists e. split; [done|].
    unfold Birthday_init in Hb. destruct (strptime s) as [d|e'] eqn:Hs; [done|].
    apply strptime_Raise in Hs as [msg ->]. injection Hb as <-. right. by right.
  - intros d Hv Ht.
    assert (Birthday_init s = Ok (mkBirthday d)) as ->
      by (apply Birthday_init_Ok, strptime_Ok; done).
    by eexists.
  - intros [b Hb] s1. rewrite add_birthday_unfold, Hb.
    rewrite add_birthday_unfold. by destruct (Birthday_init s1).
Qed.

End MoreRecords.

Section MoreBook.
Import Contact Book.

Lemma dict_get_set_eq (k : string) (v : record) (d : AddressBook) :
  dict_get k (dict_set k v d) = Some v.
Proof.
  induction d as [|[k0 v0] d IH]; simpl.
  - by rewrite String.eqb_refl.
  - destruct (String.eqb_spec k0 k) as [->|Hne]; simpl.
    + by rewrite String.eqb_refl.
    + by destruct (String.eqb_spec k0 k).
Qed.

Lemma dict_get_set_ne (k k' : string) (v : record) (d : AddressBook) :
  k' <> k -> dict_get k' (dict_set k v d) = dict_get k' d.
Proof.
  intros Hne. induction d as [|[k0 v0] d IH]; simpl.
  - by destruct (String.eqb_spec k k').
  - destruct (String.eqb_spec k0 k) as [->|Hk0]; simpl.
    + by destruct (String.eqb_spec k k').
    + by rewrite IH.
Qed.

Lemma dict_set_keys (k : string) (v : record) (d : AddressBook) :
  (k ∈ keys d -> keys (dict_set k v d) = keys d)
  /\ (k ∉ keys d -> dict_set k v d = d ++ [(k, v)]).
Proof.
  unfold keys. induction d as [|[k0 v0] d [IH1 IH2]]; simpl.
  - split; [by intros ?%elem_of_nil|done].
  - destruct (String.eqb_spec k0 k) as [->|Hne]; simpl.
    + split; [done|]. intros []. left.
    + split.
      * intros [->|Hin]%elem_of_cons; [done|]. rewrite ?fmap_cons. simpl. f_equal. by apply IH1.
      * intros [_ Hout]%not_elem_of_cons. by rewrite IH2.
Qed.

Lemma dict_set_same (k : string) (v : record) (d : AddressBook) :
  dict_get k d = Some v -> dict_set k v d = d.
Proof.
  induction d as [|[k0 v0] d IH]; simpl; [done|].
  destruct (String.eqb_spec k0 k) as [->|Hne].
  - by intros [= ->].
  - intros H. by rewrite IH.
Qed.

Lemma dict_del_set_new (k : string) (v : record) (d : AddressBook) :
  k ∉ keys d -> dict_del k (dict_set k v d) = d.
Proof.
  unfold keys. induction d as [|[k0 v0] d IH]; simpl.
  - by rewrite String.eqb_refl.
  - intros [Hne Hout]%not_elem_of_cons.
    destruct (String.eqb_spec k0 k) as [->|_]; [done|]. simpl.
    destruct (String.eqb_spec k0 k) as [->|_]; [done|]. by rewrite IH.
Qed.

(** X8.  [add_record(rec)] always returns; afterwards [find] of the record's
    name gives [rec], every other name finds what it found before, a name
    already in the book keeps its place (the old record is replaced), a new
    name goes to the end, and the keys stay distinct. *)
Theorem add_record_then_find (book : AddressBook) (rec : record) :
  let k := Name_value (name rec) in
  exists book',
    add_record rec book = (Ok tt, book')
    /\ find k book' = (Ok (Some rec), book')
    /\ (forall k', k' <> k -> dict_get k' book' = dict_get k' book)
    /\ (k ∈ keys book -> keys book' = keys book)
    /\ (k ∉ keys book -> book' = book ++ [(k, rec)])
    /\ (well_formed book -> well_formed book').
Proof.
  simpl. eexists. split; [done|]. unfold find, read. split_and!.
  - by rewrite dict_get_set_eq.
  - intros k' Hk'. by apply dict_get_set_ne.
  - apply dict_set_keys.
  - apply dict_set_keys.
  - apply dict_set_well_formed.
Qed.

(** X9.  [delete] of the name of a record just added under a name the book did
    not hold gives the book back as it was. *)
Theorem add_record_then_delete (book : AddressBook) (rec : record) :
  Name_value (name rec) ∉ keys book ->
  Book.delete (Name_value (name rec)) (add_record rec book).2 = (Ok tt, book).
Proof.
  intros Hout. unfold add_record, update. simpl.
  rewrite delete_unfold, bool_decide_eq_true_2.
  - by rewrite dict_del_set_new.
  - match goal with |- ?k ∈ ?l => destruct (decide (k ∈ l)) as [|Hn]; [done|] end.
    apply dict_get_None in Hn. by rewrite dict_get_set_eq in Hn.
Qed.

End MoreBook.

Section MoreUpcoming.
Import Contact Book Spec.

Lemma date_new_Raise (y m d : Z) (e : exn) :
  date_new y m d = Raise e -> exists msg, e = ValueError msg.
Proof. unfold date_new. repeat case_match; intros [= <-]; by eexists. Qed.

Lemma leap_next_year (y : Z) : is_leap y = true -> is_leap (y + 1) = false.
Proof.
  unfold is_leap. rewrite andb_true_iff, andb_false_iff, !Z.eqb_eq, Z.eqb_neq.
  intros [H4 _]. left. Z.div_mod_to_equations. lia.
Qed.

Ltac leap_lia :=
  repeat match goal with
    | H : context [is_leap ?y] |- _ => destruct (is_leap y)
    | |- context [is_leap ?y] => destruct (is_leap y)
    end;
  lia.

(** X10.  The occurrence [get_upcoming_birthdays] computes for a birthday has
    the stored month and day, lies in the current or the next year, and is
    never before today and never more than 365 days away; so with [days] of
    365 or more the record is always selected. *)
Theorem occurrence_within_a_year (today : date) (days : Z) (rec : record)
    (b : Birthday) (occ : date) :
  valid today -> valid (Birthday_value b) -> birthday rec = Some b ->
  Spec.occurrence today (Birthday_value b) occ ->
  0 <= days_until today occ <= 365
  /\ month occ = month (Birthday_value b) /\ day occ = day (Birthday_value b)
  /\ (year occ = year today \/ year occ = year today + 1)
  /\ (365 <= days -> selects today days rec).
Proof.
  intros Ht Hb Hbd Hocc.
  assert (0 <= days_until today occ <= 365
          /\ month occ = month (Birthday_value b) /\ day occ = day (Birthday_value b)
          /\ (year occ = year today \/ year occ = year today + 1)) as (Hd & Hm & Hday & Hy).
  { destruct Hocc as (ty & Hty & Hcases).
    apply replace_year_valid in Hty as (Hv & Hyty & Hmty & Hdty).
    pose proof Ht as (Hty1 & Htm & Htd). pose proof Hv as (Hvy & Hvm & Hvd).
    pose proof (day_of_year_bounds _ _ _ Htm Htd) as Bt.
    pose proof (day_of_year_bounds _ _ _ Hvm Hvd) as Bv.
    unfold before, days_until in *.
    destruct Hcases as [[Hnb ->]|[Hbf Hnext]].
    - unfold toordinal, ymd2ord in *. rewrite Hyty in *.
      split_and!; [leap_lia|leap_lia|done|done|by left].
    - pose proof (replace_year_next _ _ Hv _ Hnext Hyty) as Hdiff.
      apply replace_year_valid in Hnext as ((_ & Hom & Hod) & Hy' & Hm' & Hd').
      pose proof (day_of_year_bounds _ _ _ Hom Hod) as Bo.
      unfold toordinal, ymd2ord in *. rewrite Hyty, Hy' in *.
      rewrite days_before_year_succ in *.
      split_and!; [leap_lia|leap_lia|congruence|congruence|by right]. }
  split_and!; [lia|lia|done..|].
  intros Hdays. unfold selects.
  rewrite (upcoming_line_occurrence today days rec b occ) by done.
  rewrite bool_decide_eq_true_2; [by eexists|]. unfold in_window. lia.
Qed.

(** X11.  For a record whose birthday is a 29th of February the loop body of
    [get_upcoming_birthdays] returns exactly when today lies in January or
    February of a leap year; on every other day it raises. *)
Theorem leap_day_birthday_season (today : date) (days : Z) (rec : record) (b : Birthday) :
  valid today -> birthday rec = Some b ->
  month (Birthday_value b) = 2 -> day (Birthday_value b) = 29 ->
  (is_Ok (upcoming_line today days rec) <->
   is_leap (year today) = true /\ month today <= 2).
Proof.
  intros Ht Hbd Hm Hd. pose proof Ht as (Hy & Htm & Htd).
  assert (replace_year (Birthday_value b) (year today) = date_new (year today) 2 29)
    as Hrep by (unfold replace_year; by rewrite Hm, Hd).
  unfold upcoming_line. rewrite Hbd, Hrep.
  destruct (is_leap (year today)) eqn:Hleap.
  - assert (date_new (year today) 2 29 = Ok (mkdate (year today) 2 29)) as ->.
    { apply date_new_Ok. split; [done|]. unfold valid, days_in_month. simpl.
      rewrite Hleap. simpl. lia. }
    simpl.
    assert (valid (mkdate (year today) 2 29)) as Hv.
    { unfold valid, days_in_month. simpl. rewrite Hleap. simpl. lia. }
    destruct (date_lt (mkdate (year today) 2 29) today) eqn:Hlt.
    + apply date_lt_spec in Hlt. simpl in Hlt.
      assert (2 < month today) as Hmt.
      { destruct Hlt as [?|[_ [?|[Heq Hday]]]]; [lia|done|].
        unfold days_in_month in Htd. rewrite <- Heq, Hleap in Htd. simpl in Htd. lia. }
      unfold replace_year. simpl.
      assert (is_Raise (date_new (year today + 1) 2 29)) as [e ->].
      { unfold date_new, days_in_month. rewrite (leap_next_year _ Hleap). simpl.
        repeat case_match; by eexists. }
      simpl. split; [by intros [? ?]|lia].
    + assert (month today <= 2) as Hmt.
      { destruct (Z.le_gt_cases (month today) 2) as [|Hgt]; [done|].
        assert (date_lt (mkdate (year today) 2 29) today = true) as Hc; [|congruence].
        apply date_lt_spec. simpl. right. split; [done|]. by left. }
      split; [done|]. intros _. simpl.
      case_match; [|by eexists].
      destruct (Z.leb_spec 5 (weekday (mkdate (year today) 2 29))) as [H5|H5];
        [|by eexists].
      destruct (weekend_shift_ok _ Hv H5) as (rep & -> & _). by eexists.
  - assert (is_Raise (date_new (year today) 2 29)) as [e ->].
    { unfold date_new, days_in_month. rewrite Hleap. simpl. repeat case_match; by eexists. }
    simpl. split; [by intros [? ?]|by intros [? _]].
Qed.

Lemma replace_year_total (d : date) (y : Z) :
  valid d -> MINYEAR <= y <= MAXYEAR -> ~ (month d = 2 /\ day d = 29) ->
  exists d', replace_year d y = Ok d'.
Proof.
  intros (Hy & Hm & Hd) Hyr Hnot. eexists. apply date_new_Ok. split; [done|].
  unfold valid. simpl. split_and!; try lia.
  unfold days_in_month in *.
  destruct (Z.eqb_spec (month d) 2) as [E|E]; simpl in *.
  - rewrite E in *. simpl in *. destruct (is_leap y), (is_leap (year d)); simpl in *; lia.
  - lia.
Qed.

Lemma occurrence_exists (today b : date) :
  valid today -> year today < MAXYEAR -> valid b -> ~ (month b = 2 /\ day b = 29) ->
  exists occ, Spec.occurrence today b occ.
Proof.
  intros Ht Hy Hb Hnot. pose proof Ht as (Hyt & _).
  destruct (replace_year_total b (year today) Hb Hyt Hnot) as [ty Hty].
  pose proof (replace_year_valid _ _ _ Hty) as (Hv & _ & Hm & Hd).
  destruct (Z.lt_ge_cases (toordinal ty) (toordinal today)) as [Hbf|Hnb].
  - destruct (replace_year_total ty (year today + 1) Hv) as [occ Hocc].
    { unfold MINYEAR, MAXYEAR in *. lia. }
    { by rewrite Hm, Hd. }
    exists occ, ty. split; [done|]. by right.
  - exists ty, ty. split; [done|]. left. split; [|done]. unfold before. lia.
Qed.

(** X12.  Before the year 9999, [get_upcoming_birthdays] returns, leaving the
    book as it was, on every book whose birthdays are real dates other than
    the 29th of February. *)
Theorem upcoming_returns (today : date) (days : Z) (book : AddressBook) :
  valid today -> year today < MAXYEAR -> birthdays_valid book ->
  Forall (fun rec => forall b, birthday rec = Some b ->
            ~ (month (Birthday_value b) = 2 /\ day (Birthday_value b) = 29))
    (values book) ->
  exists lines, get_upcoming_birthdays today days book = (Ok lines, book).
Proof.
  intros Ht Hy Hvalid Hnoleap. unfold birthdays_valid in Hvalid.
  unfold get_upcoming_birthdays.
  destruct (upcoming_loop_total today days (values book) []) as [lines Hl];
    [|by exists lines; rewrite Hl].
  rewrite Forall_forall in Hvalid, Hnoleap. apply Forall_forall. intros rec Hin.
  destruct (birthday rec) as [b|] eqn:Hb.
  - destruct (occurrence_exists today (Birthday_value b)) as [occ Hocc]; eauto.
    rewrite (upcoming_line_occurrence today days rec b occ) by eauto.
    case_bool_decide; by eexists.
  - rewrite upcoming_line_no_birthday by done. by eexists.
Qed.

Lemma upcoming_loop_Raise_inv today days recs acc e :
  upcoming_loop today days recs acc = Raise e ->
  exists rec, rec ∈ recs /\ upcoming_line today days rec = Raise e.
Proof.
  revert acc. induction recs as [|rec recs IH]; intros acc; simpl; [done|].
  destruct (upcoming_line today days rec) as [r|e'] eqn:Hr; simpl.
  - intros (rec' & Hin & Hr')%IH. exists rec'. split; [by right|done].
  - intros [= <-]. exists rec. split; [by left|done].
Qed.

Lemma upcoming_line_Raise today days rec b e :
  valid today -> valid (Birthday_value b) -> birthday rec = Some b ->
  upcoming_line today days rec = Raise e ->
  (exists msg, e = ValueError msg)
  /\ ~ exists occ, Spec.occurrence today (Birthday_value b) occ.
Proof.
  intros Ht Hv Hb Hr.
  assert (~ exists occ, Spec.occurrence today (Birthday_value b) occ) as Hno.
  { intros [occ Hocc].
    rewrite (upcoming_line_occurrence today days rec b occ) in Hr by done.
    by case_bool_decide. }
  split; [|done].
  unfold upcoming_line in Hr. rewrite Hb in Hr.
  destruct (replace_year (Birthday_value b) (year today)) as [ty|e1] eqn:Hty; simpl in Hr.
  - destruct (if date_lt ty today then replace_year ty (year today + 1) else Ok ty)
      as [occ|e2] eqn:Hocc; simpl in Hr.
    + destruct Hno. exists occ. apply occurrence_code; [done..|]. by rewrite Hty.
    + injection Hr as <-. destruct (date_lt ty today); [|done].
      by apply date_new_Raise in Hocc.
  - injection Hr as <-. by apply date_new_Raise in Hty.
Qed.

(** X13.  When [get_upcoming_birthdays] raises, on a book of real dates, the
    exception is a [ValueError] and comes from a record whose birthday has no
    occurrence; the shift to Monday never overflows. *)
Theorem upcoming_raises_only_ValueError (today : date) (days : Z) (book : AddressBook)
    (e : exn) :
  valid today -> birthdays_valid book ->
  (get_upcoming_birthdays today days book).1 = Raise e ->
  exists msg rec b,
    e = ValueError msg /\ rec ∈ values book /\ birthday rec = Some b
    /\ ~ exists occ, Spec.occurrence today (Birthday_value b) occ.
Proof.
  intros Ht Hvalid. unfold birthdays_valid in Hvalid. rewrite Forall_forall in Hvalid.
  unfold get_upcoming_birthdays. simpl.
  intros (rec & Hin & Hr)%upcoming_loop_Raise_inv.
  destruct (birthday rec) as [b|] eqn:Hb;
    [|by rewrite upcoming_line_no_birthday in Hr].
  destruct (upcoming_line_Raise today days rec b e) as [[msg ->] Hno]; [by eauto..|].
  by exists msg, rec, b.
Qed.

Lemma omap_sublist {A} (rs rs' : list (option A)) :
  Forall2 (fun r r' => r = None \/ r = r') rs rs' ->
  omap id rs `sublist_of` omap id rs'.
Proof.
  induction 1 as [|r r' rs rs' [->| ->] _ IH]; simpl; [done| |].
  - destruct r'; simpl; [by apply sublist_cons|done].
  - destruct r'; simpl; [by apply sublist_skip|done].
Qed.

(** X14.  A wider window never loses a line: when [get_upcoming_birthdays]
    returns for [days], it returns for every larger [days'], and the lines
    for [days] are among the lines for [days'], in the same order. *)
Theorem upcoming_window_monotone (today : date) (days days' : Z) (book : AddressBook)
    (lines : list string) :
  valid today -> birthdays_valid book -> days <= days' ->
  get_upcoming_birthdays today days book = (Ok lines, book) ->
  exists lines',
    get_upcoming_birthdays today days' book = (Ok lines', book)
    /\ lines `sublist_of` lines'.
Proof.
  intros Ht Hvalid Hle. unfold birthdays_valid in Hvalid.
  unfold get_upcoming_birthdays. intros [= Hl].
  apply upcoming_loop_Ok in Hl as (rs & Hrs & ->). simpl.
  assert (exists rs',
            Forall2 (fun rec r => upcoming_line today days' rec = Ok r) (values book) rs'
            /\ Forall2 (fun r r' => r = None \/ r = r') rs rs') as (rs' & Hrs' & Hrel).
  { induction Hrs as [|rec r recs rs Hr _ IH].
    - exists []. split; constructor.
    - apply Forall_cons in Hvalid as [Hv Hvalid].
      destruct (IH Hvalid) as (rs' & Hrs' & Hrel).
      destruct (birthday rec) as [b|] eqn:Hb.
      + specialize (Hv b eq_refl).
        destruct (upcoming_line_Ok today days rec b r) as [occ Hocc]; [done..|].
        rewrite (upcoming_line_occurrence today days rec b occ) in Hr by done.
        exists ((if bool_decide (in_window today days' occ)
                 then Some (line rec (reported occ)) else None) :: rs').
        split.
        * constructor; [|done].
          rewrite (upcoming_line_occurrence today days' rec b occ) by done.
          by destruct (bool_decide (in_window today days' occ)).
        * constructor; [|done]. unfold in_window in *.
          case_bool_decide as Hw; injection Hr as <-; [|by left].
          right. by rewrite bool_decide_eq_true_2 by lia.
      + rewrite upcoming_line_no_birthday in Hr by done. injection Hr as <-.
        exists (None :: rs'). split; (constructor; [|done]).
        * by apply upcoming_line_no_birthday.
        * by left. }
  exists (omap id rs'). split.
  - f_equal. apply upcoming_loop_Ok. by exists rs'.
  - by apply omap_sublist.
Qed.

End MoreUpcoming.

Section MoreHandlers.
Import Contact Book Storage Handlers.

Lemma dict_set_set (k : string) (v v' : record) (d : AddressBook) :
  dict_set k v' (dict_set k v d) = dict_set k v' d.
Proof.
  induction d as [|[k0 v0] d IH]; simpl.
  - by rewrite String.eqb_refl.
  - destruct (String.eqb_spec k0 k) as [->|Hne]; simpl.
    + by rewrite String.eqb_refl.
    + destruct (String.eqb_spec k0 k); [done|]. by rewrite IH.
Qed.

Lemma book_after_write (io : write) (w : world) : book (after_write io w) = book w.
Proof. by destruct io. Qed.

Lemma save_data_unfold (io : write) (w : world) :
  save_data io w
  = (match failure io with None => Ok tt | Some msg => Raise (OSError msg) end,
     after_write io w).
Proof. by destruct io. Qed.

Lemma add_contact_unfold (io : write) (name phone : string) (rest : list string)
    (w : world) :
  add_contact io (name :: phone :: rest) w =
    match dict_get name (book w) with
    | Some rec =>
        match add_phone phone rec with
        | (Ok _, rec') =>
            (answer io "Contact updated.",
             after_write io (mkWorld (dict_set name rec' (book w)) (disk w)))
        | (Raise e, rec') => (error_text e, mkWorld (dict_set name rec' (book w)) (disk w))
        end
    | None =>
        match Record_init name with
        | Ok rec =>
            match add_phone phone rec with
            | (Ok _, rec') =>
                (answer io "Contact saved.",
                 after_write io
                   (mkWorld (dict_set name rec' (dict_set name rec (book w))) (disk w)))
            | (Raise e, rec') =>
                (error_text e,
                 mkWorld (dict_set name rec' (dict_set name rec (book w))) (disk w))
            end
        | Raise e => (error_text e, w)
        end
    end.
Proof.
  unfold add_contact, input_error, add_contact_body, mbind, method_bind, read, lift,
    returns, on_book, on_record, update, add_record.
  destruct w as [b d]. simpl. destruct (dict_get name b) as [rec|]; simpl.
  - destruct (add_phone phone rec) as [[[]|e] rec']; [|done]. by destruct io.
  - unfold Record_init, Name_init, mbind, result_bind.
    destruct (String.eqb name ""); simpl; [done|].
    destruct (add_phone phone _) as [[[]|e] rec']; [|done]. by destruct io.
Qed.

Lemma change_contact_unfold (io : write) (name old new : string) (w : world) :
  change_contact io [name; old; new] w =
    match dict_get name (book w) with
    | Some rec =>
        match edit_phone old new rec with
        | (Ok _, rec') =>
            (answer io "Contact updated.",
             after_write io (mkWorld (dict_set name rec' (book w)) (disk w)))
        | (Raise e, rec') => (error_text e, mkWorld (dict_set name rec' (book w)) (disk w))
        end
    | None => ("Contact not found.", w)
    end.
Proof.
  unfold change_contact, input_error, change_contact_body, mbind, method_bind, read,
    returns, on_record.
  destruct w as [b d]. simpl. destruct (dict_get name b) as [rec|]; simpl; [|done].
  destruct (edit_phone old new rec) as [[[]|e] rec']; [|done]. by destruct io.
Qed.

Lemma add_birthday_handler_unfold (io : write) (name birthday : string) (w : world) :
  Handlers.add_birthday io [name; birthday] w =
    match dict_get name (book w) with
    | Some rec =>
        match Contact.add_birthday birthday rec with
        | (Ok _, rec') =>
            (answer io "Birthday added.",
             after_write io (mkWorld (dict_set name rec' (book w)) (disk w)))
        | (Raise e, rec') => (error_text e, mkWorld (dict_set name rec' (book w)) (disk w))
        end
    | None => ("Contact not found.", w)
    end.
Proof.
  unfold Handlers.add_birthday, input_error, add_birthday_body, mbind, method_bind, read,
    returns, on_record.
  destruct w as [b d]. simpl. destruct (dict_get name b) as [rec|]; simpl; [|done].
  destruct (Contact.add_birthday birthday rec) as [[[]|e] rec']; [|done]. by destruct io.
Qed.

(** A failed write never gives the answer of a handler that succeeded. *)
Lemma answer_failure (io : write) (msg message : string) :
  failure io = Some msg -> answer io message = ("An error occurred: " ++ msg)%string.
Proof. unfold answer. by intros ->. Qed.

(** X15.  [add_contact] with a valid phone, whatever the file system does
    with the write: a new name (not empty) is added at the end of the book
    with that one phone; for a name already there the phone is added to its
    record (unless it holds it already).  When the write is done the file
    holds the new book and the answer is "Contact saved." for a new name and
    "Contact updated." for an old one; when the write fails the change stays
    in memory, the file is as the failed write left it, and the answer is the
    text for unexpected errors. *)
Theorem add_contact_saves (io : write) (name phone : string) (rest : list string)
    (w : world) :
  is_Ok (Phone_init phone) ->
  (dict_get name (book w) = None -> name <> "" ->
     add_contact io (name :: phone :: rest) w
     = (answer io "Contact saved.",
        after_write io
          (mkWorld (book w ++ [(name, mkRecord (mkName name) [mkPhone phone] None)])
             (disk w))))
  /\ (forall rec, dict_get name (book w) = Some rec ->
     add_contact io (name :: phone :: rest) w
     = (answer io "Contact updated.",
        after_write io (mkWorld (dict_set name (add_phone phone rec).2 (book w)) (disk w)))).
Proof.
  intros [p Hp]. pose proof Hp as (-> & _)%Phone_init_Ok.
  rewrite add_contact_unfold. split.
  - intros Hnone Hne. rewrite Hnone.
    unfold Record_init, Name_init. destruct (String.eqb_spec name ""); [done|]. simpl.
    rewrite add_phone_absent by apply not_elem_of_nil. rewrite Hp. simpl.
    rewrite dict_set_set.
    apply dict_get_None in Hnone. by rewrite (proj2 (dict_set_keys _ _ _)).
  - intros rec Hrec. rewrite Hrec.
    destruct (decide (phone ∈ phone_values rec)) as [Hin|Hout].
    + by rewrite add_phone_present.
    + by rewrite add_phone_absent, Hp.
Qed.

(** X16.  [add_contact] with a phone that [Phone] refuses answers with the
    text of the validation error and writes nothing to the file; for a name
    already there nothing changes, but a new name stays in the book in
    memory, with a record without phones. *)
Theorem add_contact_invalid_phone (io : write) (name phone : string)
    (rest : list string) (w : world) :
  ~ is_Ok (Phone_init phone) ->
  (dict_get name (book w) = None -> name <> "" ->
     add_contact io (name :: phone :: rest) w
     = ("Phone must contain exactly 10 digits",
        mkWorld (book w ++ [(name, mkRecord (mkName name) [] None)]) (disk w)))
  /\ (forall rec, dict_get name (book w) = Some rec -> phone ∉ phone_values rec ->
     add_contact io (name :: phone :: rest) w
     = ("Phone must contain exactly 10 digits", w)).
Proof.
  intros Hbad.
  assert (Phone_init phone = Raise (ValueError "Phone must contain exactly 10 digits"))
    as Hp.
  { destruct (Phone_init phone) as [p|e] eqn:Hp; [destruct Hbad; by exists p|].
    by apply Phone_init_Raise in Hp as ->. }
  rewrite add_contact_unfold. split.
  - intros Hnone Hne. rewrite Hnone.
    unfold Record_init, Name_init. destruct (String.eqb_spec name ""); [done|]. simpl.
    rewrite add_phone_absent by apply not_elem_of_nil. rewrite Hp. simpl.
    rewrite dict_set_set.
    apply dict_get_None in Hnone. by rewrite (proj2 (dict_set_keys _ _ _)).
  - intros rec Hrec Hout. rewrite Hrec, add_phone_absent, Hp by done. simpl.
    rewrite dict_set_same by done. by destruct w.
Qed.

(** X17.  What [change_contact] can do.  Either it has three arguments, the
    contact exists, holds the old phone and the new one is valid: then the
    phone is edited in the book in memory, and the book is written; when the
    write is done the file holds the new book and the answer is
    "Contact updated."; when the write fails the edit stays in memory, the
    file is as the failed write left it, and the answer is the text for
    unexpected errors.  Or the answer is not "Contact updated." and neither
    the book nor the file changes. *)
Theorem change_contact_outcomes (io : write) (args : list string) (w : world) :
  (exists name old new rec,
      args = [name; old; new] /\ dict_get name (book w) = Some rec
      /\ old ∈ phone_values rec /\ is_Ok (Phone_init new)
      /\ change_contact io args w
         = (answer io "Contact updated.",
            after_write io
              (mkWorld (dict_set name (edit_phone old new rec).2 (book w)) (disk w))))
  \/ ((change_contact io args w).1 <> "Contact updated."
      /\ (change_contact io args w).2 = w).
Proof.
  destruct args as [|name [|old [|new [|extra args]]]]; try by right.
  rewrite change_contact_unfold.
  destruct (dict_get name (book w)) as [rec|] eqn:Hrec; [|by right].
  rewrite edit_phone_unfold.
  destruct (find_phone old rec) as [[i p]|] eqn:Hf; [|right].
  - destruct (Phone_init new) as [q|e] eqn:Hq.
    + left. exists name, old, new, rec. split_and!; try done.
      * apply find_phone_Some in Hf as (Hi & Hp & _).
        apply list_elem_of_lookup. exists i. unfold phone_values.
        by rewrite list_lookup_fmap, Hi; simpl; rewrite Hp.
      * by exists q.
      * by rewrite edit_phone_unfold, Hf, Hq.
    + right. apply Phone_init_Raise in Hq as ->. simpl.
      split; [done|]. rewrite dict_set_same by done. by destruct w.
  - simpl. split; [done|]. rewrite dict_set_same by done. by destruct w.
Qed.

(** X18.  What the handler [add_birthday] can do.  Either it has two
    arguments, the contact exists and the text is taken by [Birthday]: then
    the birthday is stored in the book in memory, and the book is written;
    when the write is done the file holds the new book and the answer is
    "Birthday added."; when the write fails the birthday stays in memory, the
    file is as the failed write left it, and the answer is the text for
    unexpected errors.  Or the answer is not "Birthday added." and neither
    the book nor the file changes. *)
Theorem add_birthday_outcomes (io : write) (args : list string) (w : world) :
  (exists name birthday rec b,
      args = [name; birthday] /\ dict_get name (book w) = Some rec
      /\ Birthday_init birthday = Ok b
      /\ Handlers.add_birthday io args w
         = (answer io "Birthday added.",
            after_write io
              (mkWorld (dict_set name (set_birthday (Some b) rec) (book w)) (disk w))))
  \/ ((Handlers.add_birthday io args w).1 <> "Birthday added."
      /\ (Handlers.add_birthday io args w).2 = w).
Proof.
  destruct args as [|name [|birthday [|extra args]]]; try by right.
  rewrite add_birthday_handler_unfold.
  destruct (dict_get name (book w)) as [rec|] eqn:Hrec; [|by right].
  unfold Contact.add_birthday, mbind, method_bind, lift, update.
  destruct (Birthday_init birthday) as [b|e] eqn:Hb.
  - left. by exists name, birthday, rec, b.
  - right. apply Birthday_init_Raise in Hb as ->. simpl.
    split; [done|]. rewrite dict_set_same by done. by destruct w.
Qed.


(** ** The book of the world stays well formed *)

Lemma record_ok_add_phone (p : string) (self : record) :
  record_ok self ->
  record_ok (add_phone p self).2 /\ name (add_phone p self).2 = name self.
Proof.
  intros [Hp Hb]. unfold record_ok, phones_valid in *.
  destruct (decide (p ∈ phone_values self)) as [Hin|Hout].
  - by rewrite add_phone_present.
  - rewrite add_phone_absent by done.
    destruct (Phone_init p) as [q|e] eqn:Hq; [|done]. simpl.
    split_and!; [|done..]. apply Forall_app. split; [done|].
    apply Forall_singleton. pose proof Hq as (-> & _)%Phone_init_Ok. by exists (mkPhone p).
Qed.

Lemma record_ok_remove_phone (p : string) (self : record) :
  record_ok self ->
  record_ok (remove_phone p self).2 /\ name (remove_phone p self).2 = name self.
Proof.
  intros [Hp Hb]. unfold record_ok, phones_valid in *. rewrite remove_phone_unfold.
  destruct (find_phone p self) as [[i q]|]; [|done]. simpl.
  split_and!; [|done..]. by apply Forall_delete.
Qed.

Lemma record_ok_edit_phone (old new : string) (self : record) :
  record_ok self ->
  record_ok (edit_phone old new self).2 /\ name (edit_phone old new self).2 = name self.
Proof.
  intros [Hp Hb]. unfold record_ok, phones_valid in *. rewrite edit_phone_unfold.
  destruct (find_phone old self) as [[i q]|]; [|done].
  destruct (Phone_init new) as [q'|e] eqn:Hq; [|done]. simpl.
  split_and!; [|done..]. apply Forall_insert; [done|].
  pose proof Hq as (-> & _)%Phone_init_Ok. by exists (mkPhone new).
Qed.

Lemma record_ok_add_birthday (s : string) (self : record) :
  record_ok self ->
  record_ok (Contact.add_birthday s self).2
  /\ name (Contact.add_birthday s self).2 = name self.
Proof.
  intros [Hp Hb]. unfold record_ok, phones_valid in *.
  unfold Contact.add_birthday, mbind, method_bind, lift, update.
  destruct (Birthday_init s) as [b|e] eqn:Hbs; [|done]. simpl.
  split_and!; [done| |done]. intros b' [= <-].
  apply Birthday_init_Ok, strptime_Ok in Hbs. tauto.
Qed.

(** X7.  The four methods of a record, whether they return or raise, keep its
    name, keep every phone a value that [Phone] accepts, and keep the
    birthday, when there is one, a real date. *)
Theorem record_methods_keep_record_ok (self : record) :
  record_ok self ->
  (forall p, record_ok (add_phone p self).2 /\ name (add_phone p self).2 = name self)
  /\ (forall p, record_ok (remove_phone p self).2
               /\ name (remove_phone p self).2 = name self)
  /\ (forall old new, record_ok (edit_phone old new self).2
                     /\ name (edit_phone old new self).2 = name self)
  /\ (forall s, record_ok (Contact.add_birthday s self).2
               /\ name (Contact.add_birthday s self).2 = name self).
Proof.
  intros Hok. split_and!.
  - intros p. by apply record_ok_add_phone.
  - intros p. by apply record_ok_remove_phone.
  - intros old new. by apply record_ok_edit_phone.
  - intros s. by apply record_ok_add_birthday.
Qed.

Lemma book_ok_get (b : AddressBook) (k : string) (r : record) :
  book_ok b -> dict_get k b = Some r ->
  Name_value (name r) = k /\ k <> "" /\ record_ok r.
Proof.
  intros [_ Hall]. induction b as [|[k0 r0] b IH]; simpl; [done|].
  apply Forall_cons in Hall as [H0 Hall].
  destruct (String.eqb_spec k0 k) as [->|Hne]; [by intros [= <-]|by apply IH].
Qed.

Lemma book_ok_set (b : AddressBook) (k : string) (r : record) :
  book_ok b -> Name_value (name r) = k -> k <> "" -> record_ok r ->
  book_ok (dict_set k r b).
Proof.
  intros [Hwf Hall] Hn Hk Hr. split; [by apply dict_set_well_formed|].
  clear Hwf. induction b as [|[k0 r0] b IH]; simpl.
  - by apply Forall_singleton.
  - apply Forall_cons in Hall as [H0 Hall].
    destruct (String.eqb_spec k0 k) as [->|Hne]; apply Forall_cons; split; auto.
Qed.

Lemma book_ok_del (b : AddressBook) (k : string) : book_ok b -> book_ok (dict_del k b).
Proof.
  intros [Hwf Hall]. split; [by apply dict_del_well_formed|].
  clear Hwf. induction b as [|[k0 r0] b IH]; simpl; [done|].
  apply Forall_cons in Hall as [H0 Hall].
  destruct (String.eqb k0 k); [done|]. apply Forall_cons. auto.
Qed.

Lemma add_contact_book_ok (io : write) (args : list string) (w : world) :
  book_ok (book w) -> book_ok (book (add_contact io args w).2).
Proof.
  intros Hok. destruct args as [|name [|phone rest]]; [done..|].
  rewrite add_contact_unfold.
  destruct (dict_get name (book w)) as [rec|] eqn:Hrec.
  - destruct (book_ok_get _ _ _ Hok Hrec) as (Hn & Hk & Hr).
    destruct (record_ok_add_phone phone rec Hr) as [Hr' Hn'].
    destruct (add_phone phone rec) as [[[]|e] rec']; simpl in *;
      rewrite ?book_after_write; simpl.
    all: apply book_ok_set; try done; by rewrite Hn'.
  - unfold Record_init, Name_init. destruct (String.eqb_spec name "") as [|Hk]; [done|].
    simpl. set (rec := mkRecord (mkName name) [] None).
    assert (record_ok rec) as Hr by (split; [by apply Forall_nil|done]).
    destruct (record_ok_add_phone phone rec Hr) as [Hr' Hn'].
    destruct (add_phone phone rec) as [[[]|e] rec']; simpl in *;
      rewrite ?book_after_write; simpl.
    all: apply book_ok_set; [by apply book_ok_set|by rewrite Hn'|done..].
Qed.

Lemma change_contact_book_ok (io : write) (args : list string) (w : world) :
  book_ok (book w) -> book_ok (book (change_contact io args w).2).
Proof.
  intros Hok. destruct args as [|name [|old [|new [|extra args]]]]; try done.
  rewrite change_contact_unfold.
  destruct (dict_get name (book w)) as [rec|] eqn:Hrec; [|done].
  destruct (book_ok_get _ _ _ Hok Hrec) as (Hn & Hk & Hr).
  destruct (record_ok_edit_phone old new rec Hr) as [Hr' Hn'].
  destruct (edit_phone old new rec) as [[[]|e] rec']; simpl in *;
    rewrite ?book_after_write; simpl.
  all: apply book_ok_set; try done; by rewrite Hn'.
Qed.

Lemma add_birthday_book_ok (io : write) (args : list string) (w : world) :
  book_ok (book w) -> book_ok (book (Handlers.add_birthday io args w).2).
Proof.
  intros Hok. destruct args as [|name [|birthday [|extra args]]]; try done.
  rewrite add_birthday_handler_unfold.
  destruct (dict_get name (book w)) as [rec|] eqn:Hrec; [|done].
  destruct (book_ok_get _ _ _ Hok Hrec) as (Hn & Hk & Hr).
  destruct (record_ok_add_birthday birthday rec Hr) as [Hr' Hn'].
  destruct (Contact.add_birthday birthday rec) as [[[]|e] rec']; simpl in *;
    rewrite ?book_after_write; simpl.
  all: apply book_ok_set; try done; by rewrite Hn'.
Qed.

(** The handlers that only read *)
Lemma show_phone_world (args : list string) (w : world) : (show_phone args w).2 = w.
Proof.
  unfold show_phone, input_error, show_phone_body, mbind, method_bind, read, returns.
  destruct args as [|name rest]; [done|]. by destruct (dict_get name (book w)).
Qed.

Lemma show_birthday_world (args : list string) (w : world) : (show_birthday args w).2 = w.
Proof.
  unfold show_birthday, input_error, show_birthday_body, mbind, method_bind, read, returns.
  destruct args as [|name rest]; [done|].
  destruct (dict_get name (book w)) as [rec|]; [|done]. by destruct (Contact.birthday rec).
Qed.

Lemma birthday_world (today : date) (w : world) : (birthday today w).2 = w.
Proof.
  unfold birthday, input_error, birthday_body, mbind, method_bind, on_book,
    get_upcoming_birthdays, returns.
  destruct w as [b d]. simpl.
  by destruct (upcoming_loop today 7 (values b) []) as [[|l ls]|e].
Qed.

Lemma delete_world (name : string) (w : world) :
  on_book (Book.delete name) w =
    if bool_decide (name ∈ keys (book w))
    then (Ok tt, mkWorld (dict_del name (book w)) (disk w))
    else (Raise (ValueError "Contact not found"), w).
Proof.
  unfold on_book. rewrite delete_unfold. destruct w as [b d]. simpl.
  by case_bool_decide.
Qed.

Lemma delete_body_unfold (io : write) (name : string) (w : world) :
  delete_body io name w =
    if bool_decide (name ∈ keys (book w))
    then (match failure io with
          | None => Ok "Contact deleted."
          | Some msg => Raise (OSError msg)
          end,
          after_write io (mkWorld (dict_del name (book w)) (disk w)))
    else (Raise (ValueError "Contact not found"), w).
Proof.
  unfold delete_body, mbind, method_bind, returns. rewrite delete_world.
  case_bool_decide; [|done]. by destruct io.
Qed.

(** One turn of the loop, command by command *)
Lemma step_unfold (today : date) (io : write) (command : string) (args : list string)
    (w : world) :
  step today io (command :: args) w =
    if bool_decide (command ∈ ["close"; "exit"]) then
      match failure io with
      | None => (Ok ([DisplayMessage "Good bye!"], false), saved (book w))
      | Some msg => (Raise (OSError msg), after_write io w)
      end
    else if String.eqb command "hello" then
      (Ok ([DisplayMessage "Hello! How can I help you?"], true), w)
    else if String.eqb command "add" then
      (Ok ([DisplayMessage (add_contact io args w).1], true), (add_contact io args w).2)
    else if String.eqb command "change" then
      (Ok ([DisplayMessage (change_contact io args w).1], true),
       (change_contact io args w).2)
    else if String.eqb command "delete" && negb (bool_decide (args = [])) then
      if bool_decide (default "" (head args) ∈ keys (book w))
      then match failure io with
           | None =>
               (Ok ([DisplayMessage "Contact deleted."], true),
                saved (dict_del (default "" (head args)) (book w)))
           | Some msg =>
               (Raise (OSError msg),
                after_write io
                  (mkWorld (dict_del (default "" (head args)) (book w)) (disk w)))
           end
      else (Ok ([DisplayMessage "Contact not found"], true), w)
    else if String.eqb command "phone" then
      (Ok ([DisplayMessage (show_phone args w).1], true), w)
    else if String.eqb command "all" then
      (Ok ([DisplayContacts (values (book w))], true), w)
    else if String.eqb command "add-birthday" then
      (Ok ([DisplayMessage (Handlers.add_birthday io args w).1], true),
       (Handlers.add_birthday io args w).2)
    else if String.eqb command "show-birthday" then
      (Ok ([DisplayMessage (show_birthday args w).1], true), w)
    else if String.eqb command "birthdays" then
      (Ok ([DisplayMessage (birthday today w).1], true), w)
    else if String.eqb command "commands" then
      (Ok ([DisplayCommands], true), w)
    else (Ok ([DisplayMessage "Invalid command."], true), w).
Proof.
  unfold step, say. rewrite delete_body_unfold.
  destruct (bool_decide (command ∈ ["close"; "exit"])); [by destruct io|].
  destruct (String.eqb command "hello"); [done|].
  destruct (String.eqb command "add"); [by destruct (add_contact io args w)|].
  destruct (String.eqb command "change"); [by destruct (change_contact io args w)|].
  destruct (String.eqb command "delete" && negb (bool_decide (args = []))).
  { case_bool_decide; [|done]. by destruct io. }
  destruct (String.eqb command "phone").
  { pose proof (show_phone_world args w). by destruct (show_phone args w); simplify_eq/=. }
  destruct (String.eqb command "all"); [done|].
  destruct (String.eqb command "add-birthday");
    [by destruct (Handlers.add_birthday io args w)|].
  destruct (String.eqb command "show-birthday").
  { pose proof (show_birthday_world args w).
    by destruct (show_birthday args w); simplify_eq/=. }
  destruct (String.eqb command "birthdays").
  { pose proof (birthday_world today w). by destruct (birthday today w); simplify_eq/=. }
  by destruct (String.eqb command "commands").
Qed.


Lemma saved_in_sync (b : AddressBook) : in_sync (saved b).
Proof. done. Qed.






(** X22.  One turn of the loop of [main] raises nothing but the [OSError] of
    a write that fails, and that only at close, exit and the [delete] of a
    contact of the book, where [save_data] is called outside [input_error]:
    when the file system does the write the turn returns; a turn that raises
    is one of these three with a failed write; and a failed write at close or
    exit does raise, so that the loop is left by the exception.  Every
    exception of a handler is turned into an answer by [input_error], and
    [delete] of a name that is not in the book into the answer of the
    loop. *)
Theorem step_raises_only_OSError (today : date) (io : write)
    (command_parts : list string) (w : world) :
  (io = Written ->
     exists events go_on, (step today io command_parts w).1 = Ok (events, go_on))
  /\ (forall e, (step today io command_parts w).1 = Raise e ->
        exists command args msg,
          command_parts = command :: args /\ failure io = Some msg /\ e = OSError msg
          /\ (command ∈ ["close"; "exit"]
              \/ (command = "delete"
                  /\ exists name rest, args = name :: rest /\ name ∈ keys (book w))))
  /\ (forall command args msg,
        command_parts = command :: args -> command ∈ ["close"; "exit"] ->
        failure io = Some msg ->
        step today io command_parts w = (Raise (OSError msg), after_write io w)).
Proof.
  split_and!.
  - intros ->. destruct command_parts as [|command args]; [by eexists _, _|].
    rewrite step_unfold. simpl. repeat case_match; by eexists _, _.
  - intros e. destruct command_parts as [|command args]; [done|].
    rewrite step_unfold.
    destruct (bool_decide (command ∈ ["close"; "exit"])) eqn:Hc.
    { apply bool_decide_eq_true in Hc.
      destruct (failure io) as [msg|] eqn:Hio; [|by simpl].
      simpl. intros [= <-]. exists command, args, msg. auto. }
    destruct (String.eqb command "hello"); [done|].
    destruct (String.eqb command "add"); [done|].
    destruct (String.eqb command "change"); [done|].
    destruct (String.eqb command "delete" && negb (bool_decide (args = []))) eqn:Hd.
    { apply andb_true_iff in Hd as [->%String.eqb_eq Hargs]. clear Hc.
      destruct args as [|name rest];
        [by rewrite bool_decide_eq_true_2 in Hargs|]. clear Hargs. simpl.
      case_bool_decide as Hin; [|by simpl].
      destruct (failure io) as [msg|] eqn:Hio; [|by simpl].
      simpl. intros [= <-]. exists "delete", (name :: rest), msg. split_and!; try done.
      right. split; [done|]. by exists name, rest. }
    repeat case_match; done.
  - intros command args msg -> Hc Hio.
    by rewrite step_unfold, bool_decide_eq_true_2, Hio.
Qed.

(** X23.  One turn of the loop of [main] keeps the book well formed: keys
    distinct, each record under its own name, no empty name, valid phones,
    real birthdays. *)
Theorem step_keeps_book_ok (today : date) (io : write) (command_parts : list string)
    (w : world) :
  book_ok (book w) -> book_ok (book (step today io command_parts w).2).
Proof.
  intros Hok. destruct command_parts as [|command args]; [done|].
  rewrite step_unfold. repeat case_match; simpl; rewrite ?book_after_write; simpl;
    try done.
  - by apply add_contact_book_ok.
  - by apply change_contact_book_ok.
  - by apply book_ok_del.
  - by apply book_ok_del.
  - by apply add_birthday_book_ok.
Qed.


(** X25.  The command [delete]: without an argument it is answered with
    "Invalid command." and changes nothing; with the name of a contact it
    removes the contact from the book in memory and writes the book: when the
    write is done the file holds the new book and the answer is
    "Contact deleted."; when the write fails the turn raises the [OSError],
    with the contact gone from memory and the file as the failed write left
    it; with another name it is answered with "Contact not found" and changes
    nothing. *)
Theorem step_delete (today : date) (io : write) (args : list string) (w : world) :
  match args with
  | [] =>
      step today io ("delete" :: args) w
      = (Ok ([DisplayMessage "Invalid command."], true), w)
  | name :: _ =>
      (name ∈ keys (book w) ->
         match failure io with
         | None =>
             step today io ("delete" :: args) w
             = (Ok ([DisplayMessage "Contact deleted."], true),
                saved (dict_del name (book w)))
         | Some msg =>
             step today io ("delete" :: args) w
             = (Raise (OSError msg),
                after_write io (mkWorld (dict_del name (book w)) (disk w)))
         end)
      /\ (name ∉ keys (book w) ->
         step today io ("delete" :: args) w
         = (Ok ([DisplayMessage "Contact not found"], true), w))
  end.
Proof.
  rewrite step_unfold. destruct args as [|name rest]; [done|]. simpl.
  split; intros H; [|by rewrite bool_decide_eq_false_2].
  rewrite bool_decide_eq_true_2 by done. by destruct (failure io).
Qed.

(** X26.  Only the commands close, exit, add, change, delete and add-birthday
    can change the book or the file: after any other first word the turn of
    the loop leaves both as they were. *)
Theorem step_reads_only (today : date) (io : write) (command : string)
    (args : list string) (w : world) :
  command ∉ ["close"; "exit"; "add"; "change"; "delete"; "add-birthday"] ->
  (step today io (command :: args) w).2 = w.
Proof.
  intros Hc. rewrite step_unfold.
  repeat case_match; try done;
    repeat match goal with
      | H : String.eqb _ _ = true |- _ => apply String.eqb_eq in H as ->
      | H : _ && _ = true |- _ => apply andb_true_iff in H as [H _]
      | H : bool_decide _ = true |- _ => apply bool_decide_eq_true in H
      | H : _ ∈ _ :: _ |- _ => apply elem_of_cons in H as [->|H]
      | H : _ ∈ [] |- _ => by apply elem_of_nil in H
      end;
    destruct Hc; repeat first [apply list_elem_of_here | apply list_elem_of_further].
Qed.

Lemma step_facts (today : date) (io : write) (command_parts : list string) (w : world) :
  (book_ok (book w) -> book_ok (book (step today io command_parts w).2))
  /\ match (step today io command_parts w).1 with
     | Ok (events, go_on) =>
         go_on = false -> (step today io command_parts w).2 = saved (book w)
     | Raise e => exists msg, failure io = Some msg /\ e = OSError msg
     end
  /\ (io = Written -> is_Ok (step today io command_parts w).1).
Proof.
  split_and!.
  - destruct command_parts as [|command args]; [done|].
    rewrite step_unfold. repeat case_match; simpl; rewrite ?book_after_write; simpl;
      try done.
    + apply add_contact_book_ok.
    + apply change_contact_book_ok.
    + intros. by apply book_ok_del.
    + intros. by apply book_ok_del.
    + apply add_birthday_book_ok.
  - destruct command_parts as [|command args]; [done|].
    rewrite step_unfold. repeat case_match; simplify_eq/=; try done; by eexists.
  - intros ->. destruct command_parts as [|command args]; [by eexists|].
    rewrite step_unfold. simpl. repeat case_match; by eexists.
Qed.

Lemma loop_unfold (today : date) (io : write) (parts : list string) inputs (w : world) :
  loop ((today, io, parts) :: inputs) w =
    match step today io parts w with
    | (Ok (events, true), w') =>
        match loop inputs w' with
        | (Ok events', w'') => (Ok (events ++ events'), w'')
        | (Raise e, w'') => (Raise e, w'')
        end
    | (Ok (events, false), w') => (Ok events, w')
    | (Raise e, w') => (Raise e, w')
    end.
Proof.
  simpl. unfold mbind, method_bind, returns.
  destruct (step today io parts w) as [[[events []]|e] w']; simpl; [|done..].
  by destruct (loop inputs w') as [[events'|e] w''].
Qed.

(** The loop, fed lines the last of which leaves it: when it returns the
    file holds the book; when it raises, a write has failed. *)
Lemma loop_exit (inputs : list (date * write * list string)) (today : date) (io : write)
    (command : string) (args : list string) (w : world) :
  command ∈ ["close"; "exit"] ->
  match loop (inputs ++ [(today, io, command :: args)]) w with
  | (Ok events, w') => in_sync w' /\ (book_ok (book w) -> book_ok (book w'))
  | (Raise e, w') =>
      exists msg, e = OSError msg
        /\ Exists (fun turn => failure turn.1.2 = Some msg)
             (inputs ++ [(today, io, command :: args)])
  end
  /\ (Forall (fun turn => turn.1.2 = Written) (inputs ++ [(today, io, command :: args)]) ->
      is_Ok (loop (inputs ++ [(today, io, command :: args)]) w).1).
Proof.
  intros Hc. revert w. induction inputs as [|[[t i] parts] inputs IH]; intros w.
  - simpl app. rewrite loop_unfold, step_unfold, bool_decide_eq_true_2 by done.
    split.
    + destruct (failure io) as [msg|] eqn:Hio; [|done].
      exists msg. split; [done|]. by apply Exists_cons_hd.
    + intros [Hi _]%Forall_cons. simpl in Hi. subst io. by eexists.
  - simpl app. rewrite loop_unfold.
    destruct (step_facts t i parts w) as (Hok & Hres & Hwr).
    destruct (step t i parts w) as [[[events go_on]|e] w1]; simpl in *.
    + destruct go_on.
      * destruct (IH w1) as [Hloop Hret].
        destruct (loop (inputs ++ [(today, io, command :: args)]) w1)
          as [[events'|e] w2]; simpl in *.
        -- split; [split; [tauto|]; intros; apply Hloop; auto|].
           intros _. by eexists.
        -- split.
           ++ destruct Hloop as (msg & -> & Hex). exists msg. split; [done|].
              by apply Exists_cons_tl.
           ++ intros [_ Hall]%Forall_cons. by apply Hret.
      * rewrite Hres by done. split; [|by eexists]. split; [done|]. simpl. auto.
    + destruct Hres as (msg & Hio & ->). split.
      * exists msg. split; [done|]. by apply Exists_cons_hd.
      * intros [Hi _]%Forall_cons. simpl in Hi. by destruct (Hwr Hi).
Qed.


Lemma book_ok_nil : book_ok [].
Proof. split; [apply NoDup_nil_2|apply Forall_nil_2]. Qed.

Lemma book_ok_birthdays_valid (b : AddressBook) : book_ok b -> Spec.birthdays_valid b.
Proof.
  intros [_ Hall]. unfold Spec.birthdays_valid, values.
  apply Forall_fmap. eapply Forall_impl; [done|].
  intros [k r] (_ & _ & _ & Hb). done.
Qed.

(** X27.  [main], started on a missing file, on an empty one or on a file
    holding a well-formed book, and fed lines the last of which is exit or
    close.  When it returns, the file holds a well-formed book, which
    [load_data] reads back.  When it raises, the exception is the [OSError]
    of a write that failed in one of the turns.  When the file system does
    every write, it returns. *)
Theorem main_session (start : location) (inputs : list (date * write * list string))
    (today : date) (io : write) (command : string) (args : list string) :
  command ∈ ["close"; "exit"] ->
  start = None \/ start = Some NoData \/ (exists b, start = Some (Dump b) /\ book_ok b) ->
  match main start (inputs ++ [(today, io, command :: args)]) with
  | (Ok events, file) =>
      exists b', file = Some (Dump b') /\ book_ok b' /\ load_data file = Ok b'
  | (Raise e, file) =>
      exists msg, e = OSError msg
        /\ Exists (fun turn => failure turn.1.2 = Some msg)
             (inputs ++ [(today, io, command :: args)])
  end
  /\ (Forall (fun turn => turn.1.2 = Written) (inputs ++ [(today, io, command :: args)]) ->
      is_Ok (main start (inputs ++ [(today, io, command :: args)])).1).
Proof.
  intros Hc Hstart.
  assert (exists b, load_data start = Ok b /\ book_ok b) as (b & Hload & Hok).
  { destruct Hstart as [->|[->|(b & -> & Hb)]].
    - exists []. split; [done|apply book_ok_nil].
    - exists []. split; [done|apply book_ok_nil].
    - by exists b. }
  unfold main. rewrite Hload.
  destruct (loop_exit inputs today io command args (mkWorld b start) Hc) as [Hloop Hret].
  destruct (loop (inputs ++ [(today, io, command :: args)]) (mkWorld b start))
    as [[events|e] w']; simpl in *.
  - split; [|intros _; by eexists].
    destruct Hloop as [Hsync Hok']. unfold in_sync in Hsync. rewrite Hsync.
    exists (book w'). split; [done|]. split; [by apply Hok'|done].
  - split; [done|]. intros Hall. by destruct (Hret Hall).
Qed.

(** X19.  The handler [birthday] leaves the book and the file as they are.  On
    a well-formed book it answers "No upcoming birthdays." when the query
    returns no line, the lines joined by newlines when it returns some, and
    the text of the [ValueError] when the query raises; it never answers
    with the text for unexpected errors. *)
Theorem birthday_message (today : date) (w : world) :
  valid today -> book_ok (book w) ->
  (birthday today w).2 = w
  /\ match (get_upcoming_birthdays today 7 (book w)).1 with
     | Ok [] => (birthday today w).1 = "No upcoming birthdays."
     | Ok lines => (birthday today w).1 = join (String "010" "") lines
     | Raise e => exists msg, e = ValueError msg /\ (birthday today w).1 = msg
     end.
Proof.
  intros Ht Hok. split; [apply birthday_world|].
  pose proof (book_ok_birthdays_valid _ Hok) as Hvalid.
  unfold Spec.birthdays_valid in Hvalid. rewrite Forall_forall in Hvalid.
  unfold birthday, input_error, birthday_body, mbind, method_bind, on_book,
    get_upcoming_birthdays, returns.
  destruct w as [b d]. simpl in *.
  destruct (upcoming_loop today 7 (values b) []) as [[|l ls]|e] eqn:Hloop; simpl; [done..|].
  apply upcoming_loop_Raise_inv in Hloop as (rec & Hin & Hr).
  destruct (Contact.birthday rec) as [bd|] eqn:Hb;
    [|by rewrite upcoming_line_no_birthday in Hr].
  destruct (upcoming_line_Raise today 7 rec bd e) as [[msg ->] _]; [by eauto..|].
  by exists msg.
Qed.

(** X20.  After [add_birthday] of a text that [Birthday] takes, whether or not
    the write of the file succeeds, [show_birthday] answers with the stored
    date as [strftime] prints it: day and month on two digits and the year
    without leading zeros.  The answer shows the text given when that was of
    the form DD.MM.YYYY with a year from 1000 on. *)
Theorem add_birthday_then_show (io : write) (name s : string) (w : world) (rec : record)
    (b : Birthday) :
  dict_get name (book w) = Some rec -> Birthday_init s = Ok b ->
  (show_birthday [name] (Handlers.add_birthday io [name; s] w).2).1
  = (name ++ "'s birthday is " ++ strftime (Birthday_value b) ++ ".")%string
  /\ (Spec.dmY_pattern s = Some (Birthday_value b) -> 1000 <= year (Birthday_value b) ->
      (show_birthday [name] (Handlers.add_birthday io [name; s] w).2).1
      = (name ++ "'s birthday is " ++ s ++ ".")%string).
Proof.
  intros Hrec Hb.
  assert ((show_birthday [name] (Handlers.add_birthday io [name; s] w).2).1
          = (name ++ "'s birthday is " ++ strftime (Birthday_value b) ++ ".")%string) as Hshow.
  { rewrite add_birthday_handler_unfold, Hrec.
    unfold Contact.add_birthday, mbind, method_bind, lift, update. rewrite Hb. simpl.
    unfold show_birthday, input_error, show_birthday_body, mbind, method_bind, read, returns.
    rewrite book_after_write. simpl. by rewrite dict_get_set_eq. }
  split; [done|]. intros Hs%dmY_pattern_text Hy.
  by rewrite Hshow, (proj2 (strftime_dmY_text _) Hy), <- Hs.
Qed.

(** X21.  After [add_contact] of a new name with a valid phone, [show_phone]
    of the name answers with that phone. *)
Theorem add_contact_then_show_phone (io : write) (name phone : string)
    (rest : list string) (w : world) :
  dict_get name (book w) = None -> name <> "" -> is_Ok (Phone_init phone) ->
  (show_phone [name] (add_contact io (name :: phone :: rest) w).2).1
  = ("The phone number for " ++ name ++ " is " ++ phone ++ ".")%string.
Proof.
  intros Hnone Hne [p Hp]. pose proof Hp as (-> & _)%Phone_init_Ok.
  rewrite add_contact_unfold, Hnone.
  unfold Record_init, Name_init. destruct (String.eqb_spec name ""); [done|]. simpl.
  rewrite add_phone_absent by apply not_elem_of_nil. rewrite Hp. simpl.
  unfold show_phone, input_error, show_phone_body, mbind, method_bind, read, returns.
  rewrite book_after_write. simpl. by rewrite dict_get_set_eq.
Qed.

End MoreHandlers.

(** ** The further properties at work *)

Section AtWork.
Import Contact Book Storage Handlers.

Lemma ann_has_no_phone (p : string) : p ∉ phone_values Spec.ann.
Proof. apply not_elem_of_nil. Defined.

Lemma first_phone_valid : is_Ok (Phone_init "1111111111").
Proof. by exists (mkPhone "1111111111"). Defined.

Lemma third_phone_valid : is_Ok (Phone_init "3333333333").
Proof. by exists (mkPhone "3333333333"). Defined.

Lemma short_phone_invalid : ~ is_Ok (Phone_init "12345").
Proof. intros [p Hp]. discriminate Hp. Defined.

Lemma two_phones_unique : unique_phones Spec.ann_two_phones.
Proof. unfold unique_phones. simpl. apply (bool_decide_unpack _). reflexivity. Defined.

Lemma first_phone_there : "1111111111" ∈ phone_values Spec.ann_two_phones.
Proof. apply list_elem_of_here. Defined.

Lemma third_phone_new : "3333333333" ∉ phone_values Spec.ann_two_phones.
Proof. apply (bool_decide_unpack _). reflexivity. Defined.

Lemma two_phones_ok : record_ok Spec.ann_two_phones.
Proof.
  split; [|done]. unfold phones_valid. simpl.
  apply Forall_cons. split; [by eexists|]. apply Forall_singleton. by eexists.
Defined.

Lemma bob_book_ok : book_ok (book Sample.bob_world).
Proof.
  split; [apply NoDup_singleton|]. apply Forall_singleton. split_and!; [done..|].
  split; [|done]. unfold phones_valid. simpl.
  apply Forall_cons. split; [by eexists|]. apply Forall_singleton. by eexists.
Defined.

Lemma ben_occurrence : Spec.occurrence Spec.sunday (mkdate 2024 3 16) (mkdate 2024 3 16).
Proof.
  exists (mkdate 2024 3 16). split; [reflexivity|]. left. split; [|reflexivity].
  unfold Spec.before. vm_compute. discriminate.
Defined.

Lemma day_of_2023_valid : valid Spec.a_day_of_2023.
Proof. valid_date. Defined.

Lemma leap_book_valid : Spec.birthdays_valid Spec.leap_book.
Proof.
  unfold Spec.birthdays_valid, Spec.leap_book; simpl.
  repeat (apply Forall_cons; split; [intros b [= <-]; valid_date|]).
  apply Forall_nil_2.
Defined.

Lemma add_phone_new_value_ann :
  ("1111111111" ∉ phone_values Spec.ann)
  /\ exists self',
       add_phone "1111111111" Spec.ann = (Ok tt, self')
       /\ phone_values self' = phone_values Spec.ann ++ ["1111111111"]
       /\ name self' = name Spec.ann
       /\ Contact.birthday self' = Contact.birthday Spec.ann.
Proof.
  split; [apply ann_has_no_phone|].
  exact (proj1 (add_phone_new_value Spec.ann "1111111111" (ann_has_no_phone _))
           first_phone_valid).
Defined.

Lemma edit_phone_unique_iff_ann :
  unique_phones Spec.ann_two_phones
  /\ unique_phones (edit_phone "1111111111" "3333333333" Spec.ann_two_phones).2.
Proof.
  split; [apply two_phones_unique|].
  apply (edit_phone_unique_iff Spec.ann_two_phones "1111111111" "3333333333"
           two_phones_unique first_phone_there third_phone_valid).
  left. apply third_phone_new.
Defined.

Lemma add_then_remove_phone_ann :
  ("1111111111" ∉ phone_values Spec.ann)
  /\ remove_phone "1111111111" (add_phone "1111111111" Spec.ann).2 = (Ok tt, Spec.ann).
Proof.
  split; [apply ann_has_no_phone|].
  exact (add_then_remove_phone Spec.ann "1111111111" (ann_has_no_phone _)
           first_phone_valid).
Defined.

Lemma edit_phone_there_and_back_ann :
  ("1111111111" ∈ phone_values Spec.ann_two_phones)
  /\ ("3333333333" ∉ phone_values Spec.ann_two_phones)
  /\ edit_phone "3333333333" "1111111111"
       (edit_phone "1111111111" "3333333333" Spec.ann_two_phones).2
     = (Ok tt, Spec.ann_two_phones).
Proof.
  split; [apply first_phone_there|]. split; [apply third_phone_new|].
  exact (edit_phone_there_and_back Spec.ann_two_phones "1111111111" "3333333333"
           first_phone_there third_phone_new first_phone_valid third_phone_valid).
Defined.

Lemma record_methods_keep_record_ok_ann :
  record_ok Spec.ann_two_phones
  /\ forall p, record_ok (add_phone p Spec.ann_two_phones).2
               /\ name (add_phone p Spec.ann_two_phones).2 = name Spec.ann_two_phones.
Proof.
  split; [apply two_phones_ok|].
  exact (proj1 (record_methods_keep_record_ok Spec.ann_two_phones two_phones_ok)).
Defined.

Lemma add_record_then_delete_ann :
  (Name_value (name Spec.ann) ∉ keys [])
  /\ Book.delete (Name_value (name Spec.ann)) (add_record Spec.ann []).2 = (Ok tt, []).
Proof.
  split; [apply not_elem_of_nil|].
  exact (add_record_then_delete [] Spec.ann (not_elem_of_nil _)).
Defined.

Lemma occurrence_within_a_year_ben :
  valid Spec.sunday
  /\ Spec.occurrence Spec.sunday (mkdate 2024 3 16) (mkdate 2024 3 16)
  /\ 0 <= Spec.days_until Spec.sunday (mkdate 2024 3 16) <= 365
  /\ Spec.selects Spec.sunday 365 Spec.ben.
Proof.
  split; [apply sunday_valid|]. split; [apply ben_occurrence|].
  assert (valid (mkdate 2024 3 16)) as Hb by valid_date.
  destruct (occurrence_within_a_year Spec.sunday 365 Spec.ben
              (mkBirthday (mkdate 2024 3 16)) (mkdate 2024 3 16)
              sunday_valid Hb eq_refl ben_occurrence) as (Hd & _ & _ & _ & Hsel).
  split; [exact Hd|]. apply Hsel. reflexivity.
Defined.

Lemma leap_day_birthday_season_2023 :
  valid Spec.a_day_of_2023
  /\ (is_Ok (upcoming_line Spec.a_day_of_2023 7 Spec.eve) <->
      is_leap (year Spec.a_day_of_2023) = true /\ month Spec.a_day_of_2023 <= 2).
Proof.
  split; [apply day_of_2023_valid|].
  exact (leap_day_birthday_season Spec.a_day_of_2023 7 Spec.eve
           (mkBirthday (mkdate 2024 2 29)) day_of_2023_valid eq_refl eq_refl eq_refl).
Defined.

Lemma upcoming_returns_scenario :
  valid Spec.sunday /\ year Spec.sunday < MAXYEAR /\ Spec.birthdays_valid Spec.scenario
  /\ exists lines,
       get_upcoming_birthdays Spec.sunday 7 Spec.scenario = (Ok lines, Spec.scenario).
Proof.
  split; [apply sunday_valid|]. split; [reflexivity|]. split; [apply scenario_valid|].
  apply (upcoming_returns Spec.sunday 7 Spec.scenario sunday_valid eq_refl scenario_valid).
  unfold Spec.scenario; simpl.
  repeat (apply Forall_cons; split; [intros b [= <-] [Hm _]; discriminate Hm|]).
  apply Forall_nil_2.
Defined.

Lemma upcoming_raises_only_ValueError_2023 :
  valid Spec.a_day_of_2023 /\ Spec.birthdays_valid Spec.leap_book
  /\ exists msg rec b,
       ValueError "day is out of range for month" = ValueError msg
       /\ (rec ∈ values Spec.leap_book) /\ Contact.birthday rec = Some b
       /\ ~ exists occ, Spec.occurrence Spec.a_day_of_2023 (Birthday_value b) occ.
Proof.
  split; [apply day_of_2023_valid|]. split; [apply leap_book_valid|].
  exact (upcoming_raises_only_ValueError Spec.a_day_of_2023 7 Spec.leap_book _
           day_of_2023_valid leap_book_valid eq_refl).
Defined.

Lemma upcoming_window_monotone_scenario :
  valid Spec.sunday /\ Spec.birthdays_valid Spec.scenario /\ 3 <= 7
  /\ exists lines',
       get_upcoming_birthdays Spec.sunday 7 Spec.scenario = (Ok lines', Spec.scenario)
       /\ ["Name: Anna, birthday: 12.03.2024"] `sublist_of` lines'.
Proof.
  split; [apply sunday_valid|]. split; [apply scenario_valid|]. split; [lia|].
  apply (upcoming_window_monotone Spec.sunday 3 7 Spec.scenario _
           sunday_valid scenario_valid); [lia|reflexivity].
Defined.

Lemma add_contact_saves_bob :
  is_Ok (Phone_init "1111111111")
  /\ add_contact Written ["bob"; "1111111111"] Sample.nobody
     = ("Contact saved.",
        saved [("bob", mkRecord (mkName "bob") [mkPhone "1111111111"] None)]).
Proof.
  split; [apply first_phone_valid|].
  refine (proj1 (add_contact_saves Written "bob" "1111111111" [] Sample.nobody
                   first_phone_valid) eq_refl _).
  discriminate.
Defined.

Lemma add_contact_invalid_phone_bob :
  ~ is_Ok (Phone_init "12345")
  /\ add_contact Written ["bob"; "12345"] Sample.nobody
     = ("Phone must contain exactly 10 digits",
        mkWorld [("bob", mkRecord (mkName "bob") [] None)] None).
Proof.
  split; [apply short_phone_invalid|].
  refine (proj1 (add_contact_invalid_phone Written "bob" "12345" [] Sample.nobody
                   short_phone_invalid) eq_refl _).
  discriminate.
Defined.

Lemma birthday_message_bob :
  valid Spec.sunday /\ book_ok (book Sample.bob_world)
  /\ (birthday Spec.sunday Sample.bob_world).2 = Sample.bob_world.
Proof.
  split; [apply sunday_valid|]. split; [apply bob_book_ok|].
  exact (proj1 (birthday_message Spec.sunday Sample.bob_world sunday_valid bob_book_ok)).
Defined.

Lemma add_birthday_then_show_bob :
  dict_get "bob" (book Sample.bob_world) = Some Sample.bob
  /\ Birthday_init "01.02.2000" = Ok (mkBirthday (mkdate 2000 2 1))
  /\ 1000 <= 2000
  /\ (show_birthday ["bob"]
        (Handlers.add_birthday Written ["bob"; "01.02.2000"] Sample.bob_world).2).1
     = "bob's birthday is 01.02.2000.".
Proof.
  split; [reflexivity|]. split; [reflexivity|].
  assert (1000 <= 2000) as Hy by lia. split; [exact Hy|].
  exact (proj2 (add_birthday_then_show Written "bob" "01.02.2000" Sample.bob_world
                  Sample.bob (mkBirthday (mkdate 2000 2 1)) eq_refl eq_refl) eq_refl Hy).
Defined.

Lemma add_contact_then_show_phone_bob :
  dict_get "bob" (book Sample.nobody) = None /\ is_Ok (Phone_init "1111111111")
  /\ (show_phone ["bob"]
        (add_contact (Refused "[Errno 13] Permission denied: 'addressbook.pkl'")
           ["bob"; "1111111111"] Sample.nobody).2).1
     = "The phone number for bob is 1111111111.".
Proof.
  split; [reflexivity|]. split; [apply first_phone_valid|].
  refine (add_contact_then_show_phone _ "bob" "1111111111" [] Sample.nobody eq_refl _
            first_phone_valid).
  discriminate.
Defined.

Lemma step_keeps_book_ok_bob :
  book_ok (book Sample.bob_world)
  /\ book_ok (book (step Spec.sunday Written
                      ["change"; "bob"; "1111111111"; "3333333333"] Sample.bob_world).2).
Proof.
  split; [apply bob_book_ok|].
  exact (step_keeps_book_ok Spec.sunday Written _ Sample.bob_world bob_book_ok).
Defined.


Lemma step_reads_only_phone :
  ("phone" ∉ ["close"; "exit"; "add"; "change"; "delete"; "add-birthday"])
  /\ (step Spec.sunday Written ["phone"; "bob"] Sample.bob_world).2 = Sample.bob_world.
Proof.
  assert ("phone" ∉ ["close"; "exit"; "add"; "change"; "delete"; "add-birthday"]) as Hc
    by (apply (bool_decide_unpack _); reflexivity).
  split; [exact Hc|].
  exact (step_reads_only Spec.sunday Written "phone" ["bob"] Sample.bob_world Hc).
Defined.

Lemma main_session_first_run :
  ("exit" ∈ ["close"; "exit"])
  /\ is_Ok (main None ([(Spec.sunday, Written, ["add"; "bob"; "1111111111"])]
                        ++ [(Spec.sunday, Written, ["exit"])])).1.
Proof.
  assert ("exit" ∈ ["close"; "exit"]) as Hc
    by (apply list_elem_of_further, list_elem_of_here).
  split; [exact Hc|].
  refine (proj2 (main_session None [(Spec.sunday, Written, ["add"; "bob"; "1111111111"])]
                   Spec.sunday Written "exit" [] Hc (or_introl eq_refl)) _).
  repeat constructor.
Defined.

End AtWork.

(** A first session, run: the contact is added, saved, and the loop left. *)
Example first_session :
  Handlers.main None
    [(Spec.sunday, Handlers.Written, ["add"; "bob"; "1111111111"]);
     (Spec.sunday, Handlers.Written, ["phone"; "bob"]);
     (Spec.sunday, Handlers.Written, ["delete"]);
     (Spec.sunday, Handlers.Written, ["exit"])]
  = (Ok [Handlers.DisplayMessage ("Welcome to the assistant bot!" ++ String "010" "");
         Handlers.DisplayContacts []; Handlers.DisplayCommands;
         Handlers.DisplayMessage "Contact saved.";
         Handlers.DisplayMessage "The phone number for bob is 1111111111.";
         Handlers.DisplayMessage "Invalid command.";
         Handlers.DisplayMessage "Good bye!"],
     Some (Storage.Dump
             [("bob", Contact.mkRecord (mkName "bob") [mkPhone "1111111111"] None)])).
Proof. reflexivity. Qed.

(** A session on a file that cannot be written: the contact is added in
    memory and answered with the text for unexpected errors, and the write
    at exit raises out of [main]; no file is there afterwards. *)
Example refused_session :
  let denied := Handlers.Refused "[Errno 13] Permission denied: 'addressbook.pkl'" in
  Handlers.main None
    [(Spec.sunday, denied, ["add"; "bob"; "1111111111"]);
     (Spec.sunday, denied, ["phone"; "bob"]);
     (Spec.sunday, denied, ["exit"])]
  = (Raise (OSError "[Errno 13] Permission denied: 'addressbook.pkl'"), None).
Proof. reflexivity. Qed.
